(** * surfa-ingest: the event factory, the event buffer and the flush protocol

    A shallow embedding of [surfa_ingest/utils.py], [surfa_ingest/events.py],
    [surfa_ingest/exceptions.py] and [surfa_ingest/client.py].

    Python dictionaries with string keys are finite maps [gmap string pyval];
    [d.update(o)] is the union that prefers [o].  The client object is a
    record that every method takes and returns; an exception is the [Raise]
    branch of [result].  The HTTP transport, the clock and the session-id
    generator are the environment: they are arguments of the functions that
    use them.  A response body is whatever JSON value it parses to.  The
    client is one object shared by the threads of a program: the retry loop
    of [flush] takes as an argument what the other threads do to it while
    the loop waits for a response. *)

From Stdlib Require Import ZArith QArith Ascii.
From stdpp Require Import gmap strings list fin_maps pretty.

#[local] Set Warnings "-register-all".
#[local] Open Scope Z_scope.

(** ** Python values *)

(** The values an event field, a runtime field or a JSON response can hold.
    A finite float is kept as the rational it denotes. *)
Inductive pyval :=
| PNone
| PBool (b : bool)
| PInt (z : Z)
| PFloat (q : Q)
| PStr (s : string)
| PList (l : list pyval)
| PDict (d : gmap string pyval).

Abbreviation dict := (gmap string pyval).

(** [bool(v)]. *)
Definition truthy (v : pyval) : bool :=
  match v with
  | PNone => false
  | PBool b => b
  | PInt z => negb (z =? 0)
  | PFloat q => negb (Qeq_bool q 0)
  | PStr s => negb (String.eqb s "")
  | PList l => negb (Nat.eqb (length l) 0)
  | PDict d => negb (Nat.eqb (size d) 0)
  end.

(** [v is None]. *)
Definition is_none (v : pyval) : bool :=
  match v with PNone => true | _ => false end.

(** [isinstance(v, str)]. *)
Definition is_str (v : pyval) : bool :=
  match v with PStr _ => true | _ => false end.

(** [bool(d)] for a dictionary. *)
Definition dict_truthy (d : dict) : bool := negb (Nat.eqb (size d) 0).

(** [d.update(o)]: the keys of [o] win. *)
Definition update (d o : dict) : dict := o ∪ d.

(** [d[k] = v] when [v is not None]. *)
Definition set_if_not_none (k : string) (v : pyval) (d : dict) : dict :=
  if is_none v then d else <[k := v]> d.

(** An optional argument: [None] when it is omitted. *)
Definition of_opt {A} (f : A → pyval) (o : option A) : pyval :=
  match o with Some a => f a | None => PNone end.

(** [repr] of a float or of a container.  Python's text for these is not
    reproduced; any function will do, and no statement below reads it. *)
Class Repr := repr : pyval → string.

(** [str(v)], as an f-string formats a value. *)
Definition py_str `{Repr} (v : pyval) : string :=
  match v with
  | PNone => "None"
  | PBool true => "True"
  | PBool false => "False"
  | PInt z => pretty z
  | PStr s => s
  | _ => repr v
  end.

(** [s[:n]]; a string is the sequence of its characters. *)
Definition slice_to (n : nat) (s : string) : string := String.substring 0 n s.

(** [s.startswith(p)]. *)
Definition startswith (p s : string) : bool := String.prefix p s.

(** ** exceptions.py, and the built-in exceptions the code raises

    The message of a built-in exception raised by the interpreter itself
    (a keyword given twice, a missing argument) is indicative. *)

Inductive exn :=
| ValueError (message : string)
| TypeError (message : string)
| KeyError (message : string)
| SurfaConfigError (message : string)
| SurfaNetworkError (message : string)
| SurfaValidationError (message : string)
| SurfaAuthError (message : string)
| SurfaIngestError (message : string) (status_code : Z)
    (response_text : string).

(** [str(e)]. *)
Definition exn_message (e : exn) : string :=
  match e with
  | ValueError m | TypeError m | KeyError m | SurfaConfigError m
  | SurfaNetworkError m | SurfaValidationError m | SurfaAuthError m | SurfaIngestError m _ _ => m
  end.

Inductive result (A : Type) :=
| Ok (a : A)
| Raise (e : exn).

Arguments Ok {A} a.
Arguments Raise {A} e.

Definition bind {A B} (r : result A) (k : A → result B) : result B :=
  match r with Ok a => k a | Raise e => Raise e end.

Definition is_ok {A} (r : result A) : bool :=
  match r with Ok _ => true | Raise _ => false end.

(** ** The operators [in] and [[]] on a parsed JSON value

    [response.json()] returns whatever JSON value the body holds: an
    object, but also a list, a string, a number, a boolean or [null].  The
    code applies [in] and a subscript to it without looking at its type. *)

(** [sub in s] for two strings: [sub] occurs in [s]. *)
Fixpoint contains (sub s : string) : bool :=
  String.prefix sub s
  || match s with
     | EmptyString => false
     | String _ s' => contains sub s'
     end.

(** [key in v] for a string [key]: a key of a dictionary, an element of a
    list, a part of a string; a number, a boolean and [None] are not
    iterable. *)
Definition py_in (key : string) (v : pyval) : result bool :=
  match v with
  | PDict d => Ok (bool_decide (is_Some (d !! key)))
  | PList l =>
      Ok (existsb (λ x, match x with
                        | PStr s => String.eqb key s
                        | _ => false
                        end) l)
  | PStr s => Ok (contains key s)
  | PNone | PBool _ | PInt _ | PFloat _ =>
      Raise (TypeError "argument of this type is not iterable")
  end.

(** [v[key]] for a string [key]: the value of a dictionary at that key; a
    list and a string take integer indices only. *)
Definition py_getitem (v : pyval) (key : string) : result pyval :=
  match v with
  | PDict d =>
      match d !! key with
      | Some x => Ok x
      | None => Raise (KeyError key)
      end
  | PList _ =>
      Raise (TypeError "list indices must be integers or slices, not str")
  | PStr _ => Raise (TypeError "string indices must be integers, not 'str'")
  | PNone | PBool _ | PInt _ | PFloat _ =>
      Raise (TypeError "object is not subscriptable")
  end.

(** ** utils.py *)

Module utils.

Definition validate_ingest_key (key : string) : result bool :=
  if String.eqb key "" then Raise (ValueError "Ingest key cannot be empty")
  else if negb (startswith "sk_live_" key) && negb (startswith "sk_test_" key)
  then Raise (ValueError "Ingest key must start with 'sk_live_' or 'sk_test_'")
  else if (Z.of_nat (String.length key) <? 20)
  then Raise (ValueError "Ingest key is too short")
  else Ok true.

Definition merge_dicts (base override : dict) : dict := update base override.

End utils.

(** ** events.py *)

Module events.

(** The names [create_event] binds to its own parameters; every other keyword
    lands in [**kwargs]. *)
Definition named_params : list string :=
  ["kind"; "subtype"; "tool_name"; "status"; "direction"; "method";
   "correlation_id"; "span_parent_id"; "latency_ms"; "ts"; "payload"].

(** [create_event].  [now] is what [now_iso()] returns when it is called. *)
Definition create_event (now : string)
    (kind subtype tool_name status direction method correlation_id
     span_parent_id latency_ms ts : pyval)
    (payload : option dict) (kwargs : dict) : dict :=
  let event : dict :=
    <["kind" := kind]> {["ts" := if truthy ts then ts else PStr now]} in
  let event := set_if_not_none "subtype" subtype event in
  let event := set_if_not_none "tool_name" tool_name event in
  let event := set_if_not_none "status" status event in
  let event := set_if_not_none "direction" direction event in
  let event := set_if_not_none "method" method event in
  let event := set_if_not_none "correlation_id" correlation_id event in
  let event := set_if_not_none "span_parent_id" span_parent_id event in
  let event := set_if_not_none "latency_ms" latency_ms event in
  if from_option dict_truthy false payload || dict_truthy kwargs then
    let merged_payload : dict := ∅ in
    let merged_payload :=
      if from_option dict_truthy false payload
      then update merged_payload (default ∅ payload) else merged_payload in
    let merged_payload :=
      if dict_truthy kwargs then update merged_payload kwargs
      else merged_payload in
    update event merged_payload
  else event.

(** [f(k1=v1, ..., **kwargs)]: a keyword given twice is a [TypeError]. *)
Definition keywords (explicit : list (string * pyval)) (kwargs : dict)
    : result dict :=
  if existsb (λ kv, bool_decide (is_Some (kwargs !! kv.1))) explicit
  then Raise (TypeError
                "create_event() got multiple values for keyword argument")
  else Ok (kwargs ∪ list_to_map explicit).

(** One element of a sequence given to [dict.update], [i] its index: a pair,
    as a list of two values or as a string of two characters.  The event and
    every dictionary here have string keys: a pair whose key is a number, a
    boolean or [None], and an element that is itself a dictionary, read in
    the order of insertion, have no image among them, and are refused like
    a key that cannot be hashed. *)
Definition update_item (i : nat) (item : pyval) : result (string * pyval) :=
  let wrong_length (n : nat) : result (string * pyval) :=
    Raise (ValueError ("dictionary update sequence element #" +:+ pretty i
                       +:+ " has length " +:+ pretty n
                       +:+ "; 2 is required")) in
  match item with
  | PList [PStr k; v] => Ok (k, v)
  | PList [_; _] => Raise (TypeError "unhashable type")
  | PList l => wrong_length (length l)
  | PStr (String a (String b EmptyString)) =>
      Ok (String a EmptyString, PStr (String b EmptyString))
  | PStr s => wrong_length (String.length s)
  | PDict d =>
      if Nat.eqb (size d) 2 then Raise (TypeError "unhashable type")
      else wrong_length (size d)
  | PNone | PBool _ | PInt _ | PFloat _ =>
      Raise (TypeError
               "cannot convert dictionary update sequence element to a sequence")
  end.

(** [d.update(items)] for a list of pairs: a later pair wins. *)
Fixpoint update_from (i : nat) (items : list pyval) (d : dict)
    : result dict :=
  match items with
  | [] => Ok d
  | item :: rest =>
      bind (update_item i item) (λ kv,
        update_from (S i) rest (<[kv.1 := kv.2]> d))
  end.

(** The [payload] keyword, annotated [Optional[Dict[str, Any]]] and not
    checked: what [merged_payload.update(payload)] makes of it.  A falsy
    value is skipped by [if payload:] as [None] is.  A dictionary is taken
    as it is, a list as a sequence of pairs; a non-empty string is a
    sequence whose first element has length 1; a number and [True] are not
    iterable. *)
Definition payload_arg (v : option pyval) : result (option dict) :=
  match v with
  | None => Ok None
  | Some (PDict p) => Ok (Some p)
  | Some (PList l) =>
      if truthy (PList l)
      then bind (update_from 0 l ∅) (λ p, Ok (Some p))
      else Ok None
  | Some (PStr s) =>
      if truthy (PStr s)
      then Raise (ValueError
          "dictionary update sequence element #0 has length 1; 2 is required")
      else Ok None
  | Some v =>
      if truthy v then Raise (TypeError "object is not iterable") else Ok None
  end.

(** [create_event] called on an unpacked dictionary: the keywords are bound
    to the parameters by name, the rest is [**kwargs]. *)
Definition create_event_kw (now : string) (args : dict) : result dict :=
  match args !! "kind" with
  | None =>
      Raise (TypeError
               "create_event() missing 1 required positional argument: 'kind'")
  | Some kind =>
      let arg name := default PNone (args !! name) in
      bind (payload_arg (args !! "payload")) (λ payload,
        Ok (create_event now kind (arg "subtype") (arg "tool_name")
              (arg "status") (arg "direction") (arg "method")
              (arg "correlation_id") (arg "span_parent_id")
              (arg "latency_ms") (arg "ts") payload
              (foldr delete args named_params)))
  end.

Definition session_started (now : string) (payload : pyval)
    (kwargs : dict) : result dict :=
  bind (keywords [("kind", PStr "session");
                  ("subtype", PStr "session_started");
                  ("payload", payload)] kwargs)
       (create_event_kw now).

Definition session_ended (now : string) (payload : pyval)
    (kwargs : dict) : result dict :=
  bind (keywords [("kind", PStr "session");
                  ("subtype", PStr "session_ended");
                  ("payload", payload)] kwargs)
       (create_event_kw now).

Definition tool_call_started (now : string) (tool_name : string)
    (args : option dict) (correlation_id : option string) (kwargs : dict)
    : result dict :=
  let event_data : dict :=
    list_to_map [("kind", PStr "tool");
                 ("subtype", PStr "tool_call_started");
                 ("tool_name", PStr tool_name);
                 ("direction", PStr "request")] in
  let event_data :=
    set_if_not_none "correlation_id" (of_opt PStr correlation_id) event_data in
  let event_data := set_if_not_none "args" (of_opt PDict args) event_data in
  let event_data := update event_data kwargs in
  create_event_kw now event_data.

Definition tool_call_completed (now : string) (tool_name : string)
    (result_ : pyval) (latency_ms : option Z) (correlation_id : option string)
    (kwargs : dict) : result dict :=
  let event_data : dict :=
    list_to_map [("kind", PStr "tool");
                 ("subtype", PStr "tool_call_completed");
                 ("tool_name", PStr tool_name);
                 ("direction", PStr "response");
                 ("status", PStr "success")] in
  let event_data :=
    set_if_not_none "latency_ms" (of_opt PInt latency_ms) event_data in
  let event_data :=
    set_if_not_none "correlation_id" (of_opt PStr correlation_id) event_data in
  let event_data := set_if_not_none "result" result_ event_data in
  let event_data := update event_data kwargs in
  create_event_kw now event_data.

Definition tool_call_failed (now : string) (tool_name : string)
    (error : option string) (latency_ms : option Z)
    (correlation_id : option string) (kwargs : dict) : result dict :=
  let event_data : dict :=
    list_to_map [("kind", PStr "tool");
                 ("subtype", PStr "tool_call_failed");
                 ("tool_name", PStr tool_name);
                 ("direction", PStr "response");
                 ("status", PStr "error")] in
  let event_data :=
    set_if_not_none "latency_ms" (of_opt PInt latency_ms) event_data in
  let event_data :=
    set_if_not_none "correlation_id" (of_opt PStr correlation_id) event_data in
  let event_data := set_if_not_none "error" (of_opt PStr error) event_data in
  let event_data := update event_data kwargs in
  create_event_kw now event_data.

(** [custom]; [kind] defaults to ["custom"] at the call site.  As in the two
    session helpers, [payload] is the keyword as passed, [None] by default. *)
Definition custom (now : string) (kind : string) (subtype : option string)
    (payload : pyval) (kwargs : dict) : result dict :=
  bind (keywords [("kind", PStr kind);
                  ("subtype", of_opt PStr subtype);
                  ("payload", payload)] kwargs)
       (create_event_kw now).

(** [validate_event].  The argument is a dictionary by its type, so the
    [isinstance(event, dict)] test passes. *)
Definition validate_event (event : dict) : result bool :=
  match event !! "kind" with
  | None => Raise (ValueError "Event must have 'kind' field")
  | Some kind =>
      if negb (is_str kind)
      then Raise (ValueError "Event 'kind' must be a string")
      else if negb (truthy kind)
      then Raise (ValueError "Event 'kind' cannot be empty")
      else
        match event !! "ts" with
        | Some ts =>
            if negb (is_str ts)
            then Raise (ValueError "Event 'ts' must be a string")
            else Ok true
        | None => Ok true
        end
  end.

End events.

(** ** client.py *)

Module client.
Import events.

Record SurfaClient := {
  ingest_key : string;
  api_url : string;
  flush_at : Z;
  timeout_s : Z;
  session_id : string;
  execution_id : pyval;
  _buffer : list dict;
  _runtime : option dict;
  _runtime_info_emitted : bool;
  _session_ended : bool;
}.

Definition set_execution_id (v : pyval) (c : SurfaClient) : SurfaClient :=
  {| ingest_key := ingest_key c; api_url := api_url c; flush_at := flush_at c;
     timeout_s := timeout_s c; session_id := session_id c;
     execution_id := v; _buffer := _buffer c; _runtime := _runtime c;
     _runtime_info_emitted := _runtime_info_emitted c;
     _session_ended := _session_ended c |}.

Definition set_buffer (b : list dict) (c : SurfaClient) : SurfaClient :=
  {| ingest_key := ingest_key c; api_url := api_url c; flush_at := flush_at c;
     timeout_s := timeout_s c; session_id := session_id c;
     execution_id := execution_id c; _buffer := b; _runtime := _runtime c;
     _runtime_info_emitted := _runtime_info_emitted c;
     _session_ended := _session_ended c |}.

Definition set_runtime_field (r : option dict) (c : SurfaClient)
    : SurfaClient :=
  {| ingest_key := ingest_key c; api_url := api_url c; flush_at := flush_at c;
     timeout_s := timeout_s c; session_id := session_id c;
     execution_id := execution_id c; _buffer := _buffer c; _runtime := r;
     _runtime_info_emitted := _runtime_info_emitted c;
     _session_ended := _session_ended c |}.

Definition set_runtime_info_emitted (b : bool) (c : SurfaClient)
    : SurfaClient :=
  {| ingest_key := ingest_key c; api_url := api_url c; flush_at := flush_at c;
     timeout_s := timeout_s c; session_id := session_id c;
     execution_id := execution_id c; _buffer := _buffer c;
     _runtime := _runtime c; _runtime_info_emitted := b;
     _session_ended := _session_ended c |}.

Definition set_session_ended (b : bool) (c : SurfaClient) : SurfaClient :=
  {| ingest_key := ingest_key c; api_url := api_url c; flush_at := flush_at c;
     timeout_s := timeout_s c; session_id := session_id c;
     execution_id := execution_id c; _buffer := _buffer c;
     _runtime := _runtime c;
     _runtime_info_emitted := _runtime_info_emitted c; _session_ended := b |}.

(** [s.rstrip('/')]. *)
Fixpoint rstrip_slash (s : string) : string :=
  match s with
  | EmptyString => EmptyString
  | String a s' =>
      match rstrip_slash s' with
      | EmptyString =>
          if Ascii.eqb a "/"%char then EmptyString else String a EmptyString
      | r => String a r
      end
  end.

(** [SurfaClient.__init__].  [fresh_session_id] is what
    [generate_session_id()] returns. *)
Definition init (fresh_session_id : string) (ingest_key api_url : string)
    (flush_at timeout_s : Z) : result SurfaClient :=
  match utils.validate_ingest_key ingest_key with
  | Raise (ValueError e) =>
      Raise (SurfaConfigError ("Invalid ingest key: " +:+ e))
  | Raise e => Raise e
  | Ok _ =>
      Ok {| ingest_key := ingest_key; api_url := rstrip_slash api_url;
            flush_at := flush_at; timeout_s := timeout_s;
            session_id := fresh_session_id; execution_id := PNone;
            _buffer := []; _runtime := None;
            _runtime_info_emitted := false; _session_ended := false |}
  end.

(** [SurfaClient.set_runtime]. *)
Definition set_runtime (provider model : string) (mode : option string)
    (extra : option dict) (kwargs : dict) (c : SurfaClient) : SurfaClient :=
  let runtime : dict :=
    <["model" := PStr model]> {["provider" := PStr provider]} in
  let runtime :=
    if truthy (of_opt PStr mode)
    then <["mode" := of_opt PStr mode]> runtime else runtime in
  let runtime :=
    if from_option dict_truthy false extra
    then update runtime (default ∅ extra) else runtime in
  let runtime :=
    if dict_truthy kwargs then update runtime kwargs else runtime in
  set_runtime_info_emitted false (set_runtime_field (Some runtime) c).

(** *** The transport *)

(** The JSON body of the POST. *)
Record payload := {
  p_session_id : string;
  p_events : list dict;
  p_execution_id : option pyval;
  p_runtime : option dict;
}.

(** One call of [requests.post]. *)
Record request := {
  url : string;
  authorization : string;
  content_type : string;
  json : payload;
  timeout : Z;
}.

(** What one call of [requests.post] does.  [r_json] is what
    [response.json()] gives: the JSON value of the body, of whatever type, or
    [None] when parsing raises [ValueError]. *)
Inductive outcome :=
| Response (r_status_code : Z) (r_text : string) (r_json : option pyval)
| RaisesTimeout (message : string)
| RaisesConnectionError (message : string)
| RaisesRequestException (message : string).

(** The transport seen by one [flush]: the request is the same at every
    attempt, so the outcome is indexed by the attempt number. *)
Definition transport := nat → outcome.

(** A transport that plays a list of outcomes in order. *)
Definition script (l : list outcome) : transport :=
  λ attempt, nth attempt l (RaisesRequestException "no further response").

Definition max_retries : nat := 3.
Definition retry_statuses : list Z := [429; 500; 502; 503; 504].
Definition base_delay : Q := 1 # 2.

Definition in_statuses (status : Z) (l : list Z) : bool :=
  existsb (Z.eqb status) l.

(** [base_delay * (2 ** attempt)]; 0.5 and its doublings are exact floats. *)
Definition backoff (attempt : nat) : Q :=
  Qred (base_delay * inject_Z (2 ^ Z.of_nat attempt)).

(** [error_msg], extended by the [error] field of a JSON error body: the
    [try] block of the two error branches.  Its [except ValueError] catches
    the failure to parse, after which [error_msg] is as it was; the
    [TypeError] of [in] or of the subscript on a body that is no object is
    not caught there. *)
Definition with_error_field `{Repr} (error_msg : string)
    (r_json : option pyval) : result string :=
  match r_json with
  | Some error_data =>
      bind (py_in "error" error_data) (λ found,
        if found : bool then
          bind (py_getitem error_data "error") (λ v,
            Ok (error_msg +:+ " - " +:+ py_str v))
        else Ok error_msg)
  | None => Ok error_msg
  end.

(** How one pass through the body of the retry loop ends. *)
Inductive action :=
| Return (data : pyval)
| Throw (e : exn)
| SleepAndContinue (last_error : exn) (delay : Q).

(** The body of [for attempt in range(max_retries)], up to the statements
    of the success branch that follow the parsing of the body.  None of the
    three [except] clauses of the loop catches a [TypeError]: it leaves
    [flush]. *)
Definition handle `{Repr} (o : outcome) (attempt : nat) : action :=
  match o with
  | Response status text r_json =>
      if (200 <=? status) && (status <? 300) then
        Return (default (PDict ∅) r_json)
      else if in_statuses status [401; 403] then
        match with_error_field ("Authentication failed: " +:+ pretty status)
                               r_json with
        | Ok error_msg => Throw (SurfaAuthError error_msg)
        | Raise e => Throw e
        end
      else if (400 <=? status) && (status <? 500)
              && negb (in_statuses status retry_statuses) then
        match with_error_field ("Client error: " +:+ pretty status) r_json with
        | Ok error_msg =>
            Throw (SurfaIngestError error_msg status (slice_to 500 text))
        | Raise e => Throw e
        end
      else if in_statuses status retry_statuses then
        let last_error :=
          SurfaIngestError ("Server error: " +:+ pretty status) status
                           (slice_to 500 text) in
        if (attempt <? max_retries - 1)%nat
        then SleepAndContinue last_error (backoff attempt)
        else Throw last_error
      else
        Throw (SurfaIngestError ("Server error: " +:+ pretty status) status
                                (slice_to 500 text))
  | RaisesTimeout e | RaisesConnectionError e =>
      let last_error := SurfaNetworkError ("Network error: " +:+ e) in
      if (attempt <? max_retries - 1)%nat
      then SleepAndContinue last_error (backoff attempt)
      else Throw last_error
  | RaisesRequestException e =>
      Throw (SurfaNetworkError ("Request failed: " +:+ e))
  end.

(** *** flush *)

(** [bool(self._runtime) and not self._runtime_info_emitted]. *)
Definition runtime_info_due (c : SurfaClient) : bool :=
  from_option dict_truthy false (_runtime c) && negb (_runtime_info_emitted c).

(** The synthetic event: the two fixed fields, then the runtime spread over
    them. *)
Definition runtime_info_event (runtime : dict) : dict :=
  update (<["subtype" := PStr "runtime_info"]> {["kind" := PStr "runtime"]})
         runtime.

(** [events_to_send]: a copy of the buffer, with the runtime-info event
    inserted at index 0 when it is due. *)
Definition events_to_send (c : SurfaClient) : list dict :=
  if runtime_info_due c
  then runtime_info_event (default ∅ (_runtime c)) :: _buffer c
  else _buffer c.

(** The request [flush] builds before the first attempt. *)
Definition build_request (c : SurfaClient) : request :=
  {| url := api_url c +:+ "/api/v1/ingest/events";
     authorization := "Bearer " +:+ ingest_key c;
     content_type := "application/json";
     json := {| p_session_id := session_id c;
                p_events := events_to_send c;
                p_execution_id :=
                  if is_none (execution_id c) then None
                  else Some (execution_id c);
                p_runtime := _runtime c |};
     timeout := timeout_s c |}.

(** The statements of the success branch that follow the parsing, in the
    order of the source.  In [if "execution_id" in data and self.execution_id
    is None] the test [in] comes first, and the subscript is evaluated only
    when both hold; either raises before anything is assigned. *)
Definition flush_commit (c : SurfaClient) (data : pyval)
    : result SurfaClient :=
  bind (py_in "execution_id" data) (λ found,
    bind (if (found : bool) && is_none (execution_id c)
          then bind (py_getitem data "execution_id") (λ v,
                 Ok (set_execution_id v c))
          else Ok c) (λ c,
      let c :=
        if runtime_info_due c then set_runtime_info_emitted true c else c in
      Ok (set_buffer [] c))).

(** What a call of [flush] did: what it returned or raised, the client
    afterwards, the [time.sleep] delays in order, and the requests posted. *)
Record flush_run := {
  returned : result (option pyval);
  after : SurfaClient;
  sleeps : list Q;
  posts : list request;
}.

(** [self] is one object, held by every thread of the program, and [flush]
    takes no lock.  While this thread waits in [requests.post] the others
    run: [others attempt] is what their calls have made of the client by the
    time the response of that attempt is there.  [alone] is the program
    with no other thread. *)
Definition interference := nat → SurfaClient → SurfaClient.

Definition alone : interference := λ _ c, c.

(** The retry loop over the attempt numbers still to come, and the two
    statements after it.  [req] was built before the loop; the statements
    of the success branch read and write the client as it is then. *)
Fixpoint for_attempts `{Repr} (t : transport) (others : interference)
    (c : SurfaClient) (req : request) (attempts : list nat)
    (last_error : option exn) : flush_run :=
  match attempts with
  | [] =>
      {| returned :=
           Raise (default (SurfaNetworkError "Failed to flush events after retries")
                          last_error);
         after := c; sleeps := []; posts := [] |}
  | attempt :: rest =>
      let c := others attempt c in
      match handle (t attempt) attempt with
      | Return data =>
          match flush_commit c data with
          | Ok c' =>
              {| returned := Ok (Some data); after := c'; sleeps := [];
                 posts := [req] |}
          | Raise e =>
              {| returned := Raise e; after := c; sleeps := [];
                 posts := [req] |}
          end
      | Throw e =>
          {| returned := Raise e; after := c; sleeps := []; posts := [req] |}
      | SleepAndContinue e delay =>
          let r := for_attempts t others c req rest (Some e) in
          {| returned := returned r; after := after r;
             sleeps := delay :: sleeps r; posts := req :: posts r |}
      end
  end.

(** [SurfaClient.flush], in a program whose other threads do [others]. *)
Definition flush_shared `{Repr} (t : transport) (others : interference)
    (c : SurfaClient) : flush_run :=
  match _buffer c with
  | [] => {| returned := Ok None; after := c; sleeps := []; posts := [] |}
  | _ => for_attempts t others c (build_request c) (seq 0 max_retries) None
  end.

(** [SurfaClient.flush], called by the one thread that uses the client. *)
Definition flush `{Repr} (t : transport) (c : SurfaClient) : flush_run :=
  flush_shared t alone c.

(** *** Tracking *)

(** What a tracking call did; [flushed] is the run of the flush it invoked,
    if it invoked one. *)
Record track_run := {
  t_returned : result unit;
  t_after : SurfaClient;
  flushed : option flush_run;
}.

(** [SurfaClient.track_raw]. *)
Definition track_raw `{Repr} (t : transport) (event_dict : dict)
    (c : SurfaClient) : track_run :=
  match validate_event event_dict with
  | Raise (ValueError e) =>
      {| t_returned := Raise (SurfaValidationError ("Invalid event: " +:+ e));
         t_after := c; flushed := None |}
  | Raise e => {| t_returned := Raise e; t_after := c; flushed := None |}
  | Ok _ =>
      let c := set_buffer (_buffer c ++ [event_dict]) c in
      if Z.of_nat (length (_buffer c)) >=? flush_at c then
        let r := flush t c in
        {| t_returned := bind (returned r) (λ _, Ok tt);
           t_after := after r; flushed := Some r |}
      else {| t_returned := Ok tt; t_after := c; flushed := None |}
  end.

(** [SurfaClient.track]. *)
Definition track `{Repr} (t : transport) (event : dict) (c : SurfaClient)
    : track_run :=
  track_raw t event c.

(** A helper called on an unpacked [kwargs]: a [payload] key is bound to the
    helper's own parameter. *)
Definition payload_of (kwargs : dict) : pyval :=
  default PNone (kwargs !! "payload").

(** A factory call followed by [self.track(event)]. *)
Definition track_created `{Repr} (t : transport) (event : result dict)
    (c : SurfaClient) : track_run :=
  match event with
  | Ok event => track t event c
  | Raise e => {| t_returned := Raise e; t_after := c; flushed := None |}
  end.

Definition session_start `{Repr} (t : transport) (now : string)
    (kwargs : dict) (c : SurfaClient) : track_run :=
  track_created t
    (events.session_started now (payload_of kwargs)
       (delete "payload" kwargs)) c.

Definition session_end `{Repr} (t : transport) (now : string)
    (kwargs : dict) (c : SurfaClient) : track_run :=
  if negb (_session_ended c) then
    let r :=
      track_created t
        (events.session_ended now (payload_of kwargs)
           (delete "payload" kwargs)) c in
    match t_returned r with
    | Ok _ =>
        {| t_returned := Ok tt; t_after := set_session_ended true (t_after r);
           flushed := flushed r |}
    | Raise _ => r
    end
  else {| t_returned := Ok tt; t_after := c; flushed := None |}.

Definition tool_started `{Repr} (t : transport) (now : string)
    (tool_name : string) (args : option dict) (correlation_id : option string)
    (kwargs : dict) (c : SurfaClient) : track_run :=
  track_created t
    (events.tool_call_started now tool_name args correlation_id kwargs) c.

Definition tool_completed `{Repr} (t : transport) (now : string)
    (tool_name : string) (result_ : pyval) (latency_ms : option Z)
    (correlation_id : option string) (kwargs : dict) (c : SurfaClient)
    : track_run :=
  track_created t
    (events.tool_call_completed now tool_name result_ latency_ms
       correlation_id kwargs) c.

Definition tool_failed `{Repr} (t : transport) (now : string)
    (tool_name : string) (error : option string) (latency_ms : option Z)
    (correlation_id : option string) (kwargs : dict) (c : SurfaClient)
    : track_run :=
  track_created t
    (events.tool_call_failed now tool_name error latency_ms correlation_id
       kwargs) c.

Definition custom_event `{Repr} (t : transport) (now : string)
    (kind : string) (subtype : option string) (kwargs : dict)
    (c : SurfaClient) : track_run :=
  track_created t
    (events.custom now kind subtype (payload_of kwargs)
       (delete "payload" kwargs)) c.

End client.

(** ** Sequences of calls on one client *)

Module session.
Import events client.

(** The calls that change the buffer, the runtime or the execution id. *)
Inductive call :=
| CallTrack (t : transport) (event : dict)
| CallFlush (t : transport)
| CallSetRuntime (provider model : string) (mode : option string)
    (extra : option dict) (kwargs : dict).

(** One invocation of [flush], explicit or from [track_raw]: the client on
    entry and what the flush did. *)
Record flush_call := {
  before : SurfaClient;
  run : flush_run;
}.

Definition do_call `{Repr} (c : SurfaClient) (k : call)
    : SurfaClient * list flush_call :=
  match k with
  | CallTrack t event =>
      let r := track_raw t event c in
      (t_after r,
       match flushed r with
       | Some fr =>
           [{| before := set_buffer (_buffer c ++ [event]) c; run := fr |}]
       | None => []
       end)
  | CallFlush t =>
      let r := flush t c in (after r, [{| before := c; run := r |}])
  | CallSetRuntime provider model mode extra kwargs =>
      (set_runtime provider model mode extra kwargs c, [])
  end.

(** The calls in order: the final client and the flushes invoked on the way. *)
Fixpoint do_calls `{Repr} (c : SurfaClient) (ks : list call)
    : SurfaClient * list flush_call :=
  match ks with
  | [] => (c, [])
  | k :: ks =>
      let r1 := do_call c k in
      let r2 := do_calls r1.1 ks in
      (r2.1, r1.2 ++ r2.2)
  end.

Definition is_set_runtime (k : call) : bool :=
  match k with CallSetRuntime _ _ _ _ _ => true | _ => false end.

(** The response body a flush returned, when it posted a batch and got a 2xx
    response. *)
Definition delivered (fc : flush_call) : option pyval :=
  match returned (run fc) with
  | Ok (Some data) => Some data
  | _ => None
  end.

(** The flushes that succeeded, in order. *)
Definition successes (log : list flush_call) : list flush_call :=
  filter (λ fc, is_Some (delivered fc)) log.

(** The execution id of the first response body that carries one: a JSON
    object with that field.  A JSON null is stored as [None], which is no
    execution id. *)
Fixpoint first_execution_id (bodies : list pyval) : pyval :=
  match bodies with
  | [] => PNone
  | PDict data :: rest =>
      match data !! "execution_id" with
      | Some v => if is_none v then first_execution_id rest else v
      | None => first_execution_id rest
      end
  | _ :: rest => first_execution_id rest
  end.

(** Every request of the flush carried exactly these events. *)
Definition batch_is (events : list dict) (fc : flush_call) : Prop :=
  posts (run fc) ≠ [] ∧
  Forall (λ req, p_events (json req) = events) (posts (run fc)).

(** The runtime state of a client: its snapshot and its emitted flag. *)
Definition runtime_state (c : SurfaClient) : option dict * bool :=
  (_runtime c, _runtime_info_emitted c).

(** The events the six helpers return for the payload [p]. *)
Definition helper_results (now tool_name kind : string) (p : dict)
    : list (result dict) :=
  [session_started now (PDict p) ∅;
   session_ended now (PDict p) ∅;
   tool_call_started now tool_name None None {["payload" := PDict p]};
   tool_call_completed now tool_name PNone None None
     {["payload" := PDict p]};
   tool_call_failed now tool_name None None None {["payload" := PDict p]};
   custom now kind None (PDict p) ∅].

(** A flush that succeeded in full: it returned the parsed body of a 2xx
    response, the buffer is empty, the execution id is the old one or, when
    there was none, the one of the body, the emitted flag is the old one or
    [True], and nothing else changed. *)
Definition fully_succeeded (t : transport) (c : SurfaClient) (r : flush_run)
    : Prop :=
  ∃ data : pyval,
    returned r = Ok (Some data) ∧
    (∃ n status text js,
        t n = Response status text js ∧ 200 ≤ status < 300 ∧
        data = default (PDict ∅) js) ∧
    _buffer (after r) = [] ∧
    (execution_id (after r) = execution_id c ∨
     execution_id c = PNone ∧
     ∃ body : dict,
       data = PDict body ∧
       body !! "execution_id" = Some (execution_id (after r))) ∧
    (_runtime_info_emitted (after r) = _runtime_info_emitted c ∨
     _runtime_info_emitted (after r) = true) ∧
    ingest_key (after r) = ingest_key c ∧ api_url (after r) = api_url c ∧
    flush_at (after r) = flush_at c ∧ timeout_s (after r) = timeout_s c ∧
    session_id (after r) = session_id c ∧ _runtime (after r) = _runtime c ∧
    _session_ended (after r) = _session_ended c.

(** A flush that failed in full: it raised, and the client is the one it
    was called on. *)
Definition fully_failed (c : SurfaClient) (r : flush_run) : Prop :=
  ∃ e : exn, returned r = Raise e ∧ after r = c.

End session.

(** ** Notions about the responses a flush meets *)

Module responses.
Import events client.

(** The outcome is one the loop retries: a status of [retry_statuses], a
    [Timeout] or a [ConnectionError]. *)
Definition retryable (o : outcome) : bool :=
  match o with
  | Response status _ _ => in_statuses status retry_statuses
  | RaisesTimeout _ | RaisesConnectionError _ => true
  | RaisesRequestException _ => false
  end.

(** Attempt number [n], counted from 0, is made: it is one of the
    [max_retries] attempts and every attempt before it met a retryable
    outcome. *)
Definition attempted (t : transport) (n : nat) : Prop :=
  (n < max_retries)%nat ∧ ∀ i, (i < n)%nat → retryable (t i) = true.

(** The body is a JSON object, or it does not parse. *)
Definition object_or_invalid (r_json : option pyval) : Prop :=
  match r_json with
  | Some (PDict _) | None => True
  | Some _ => False
  end.

(** The [error] field of a body that is a JSON object. *)
Definition error_field (r_json : option pyval) : option pyval :=
  match r_json with
  | Some (PDict error_data) => error_data !! "error"
  | _ => None
  end.

(** [error_msg], followed by the [error] field of the body when the body
    is an object that has one. *)
Definition message_with_field `{Repr} (error_msg : string)
    (r_json : option pyval) : string :=
  match error_field r_json with
  | Some v => error_msg +:+ " - " +:+ py_str v
  | None => error_msg
  end.

(** A status the loop treats as a client error: 4xx outside 401, 403 and
    [retry_statuses]. *)
Definition client_error (status : Z) : bool :=
  (400 <=? status) && (status <? 500)
  && negb (in_statuses status [401; 403])
  && negb (in_statuses status retry_statuses).

End responses.

(** ** Other threads that track events *)

Module threads.
Import events client.






End threads.

(** ** Concrete inputs *)

Module samples.
Import events client.

(** A rendering of compound values for the concrete runs; they format
    strings only. *)
Definition repr_unread : Repr := λ _, "<object>".

Definition tool_event : dict :=
  <["tool_name" := PStr "search_web"]>
    (<["kind" := PStr "tool"]> {["ts" := PStr "2026-01-29T20:00:00Z"]}).

Definition other_event : dict :=
  <["kind" := PStr "custom"]> {["ts" := PStr "2026-01-29T20:00:01Z"]}.

(** A client with one buffered event and a threshold of 10. *)
Definition one_buffered : SurfaClient :=
  {| ingest_key := "sk_test_demo_key_1234567890";
     api_url := "http://localhost:3000"; flush_at := 10; timeout_s := 10;
     session_id := "7d1c8a7e-5f0b-4a52-9d53-0c8a1f6f3b11";
     execution_id := PNone; _buffer := [tool_event]; _runtime := None;
     _runtime_info_emitted := false; _session_ended := false |}.

Definition quote : string := String (ascii_of_nat 34) EmptyString.

Fixpoint chars (n : nat) (a : ascii) : string :=
  match n with O => EmptyString | S n => String a (chars n a) end.

(** An error text of 600 characters, and the JSON body that carries it. *)
Definition long_error : string := chars 600 "x"%char.

Definition long_error_body : string :=
  "{" +:+ quote +:+ "error" +:+ quote +:+ ": " +:+ quote +:+ long_error
      +:+ quote +:+ "}".

Definition long_error_json : pyval := PDict {["error" := PStr long_error]}.

(** The runtime of the demo script, with a [kind] field among the extra
    keywords. *)
Definition runtime_with_kind (c : SurfaClient) : SurfaClient :=
  set_runtime "anthropic" "claude-sonnet-4-5" (Some "messages") None
              {["kind" := PStr "custom"]} c.

Definition ok_body : pyval := PDict {["execution_id" := PStr "exec-1"]}.

Definition ok_text : string :=
  "{" +:+ quote +:+ "execution_id" +:+ quote +:+ ": " +:+ quote
      +:+ "exec-1" +:+ quote +:+ "}".

Definition ok_response : outcome := Response 200 ok_text (Some ok_body).

(** Track one event, flush with success, track another, flush again. *)
Definition two_flushes : list session.call :=
  [session.CallTrack (script []) tool_event;
   session.CallFlush (script [ok_response]);
   session.CallTrack (script []) other_event;
   session.CallFlush (script [ok_response])].


(** A 401 whose body is the JSON value [null], and a 200 whose body is the
    JSON number 5. *)
Definition null_401 : outcome := Response 401 "null" (Some PNone).

Definition number_200 : outcome := Response 200 "5" (Some (PInt 5)).

(** A second response, with another execution id. *)
Definition later_response : outcome :=
  Response 200
    ("{" +:+ quote +:+ "execution_id" +:+ quote +:+ ": " +:+ quote
         +:+ "exec-2" +:+ quote +:+ "}")
    (Some (PDict {["execution_id" := PStr "exec-2"]})).

(** Flush twice; the server answers with a different execution id the second
    time. *)
Definition two_ids : list session.call :=
  [session.CallFlush (script [ok_response]);
   session.CallTrack (script []) other_event;
   session.CallFlush (script [later_response])].

(** A client with an empty buffer and a threshold of 2. *)
Definition threshold_two : SurfaClient :=
  {| ingest_key := "sk_test_demo_key_1234567890";
     api_url := "http://localhost:3000"; flush_at := 2; timeout_s := 10;
     session_id := "7d1c8a7e-5f0b-4a52-9d53-0c8a1f6f3b11";
     execution_id := PNone; _buffer := []; _runtime := None;
     _runtime_info_emitted := false; _session_ended := false |}.

End samples.

(** ** client.py: the legacy aliases and the context manager *)

Module teardown.
Import events client.

(** [SurfaClient.session_started], the legacy alias of [session_start]. *)
Definition session_started `{Repr} (t : transport) (now : string)
    (c : SurfaClient) : track_run :=
  session_start t now ∅ c.

(** [SurfaClient.session_ended], the legacy alias of [session_end]. *)
Definition session_ended `{Repr} (t : transport) (now : string)
    (c : SurfaClient) : track_run :=
  session_end t now ∅ c.

(** [SurfaClient.__enter__]. *)
Definition __enter__ (c : SurfaClient) : SurfaClient := c.

Definition flush_of (r : track_run) : list flush_run :=
  match flushed r with Some fr => [fr] | None => [] end.

(** What [__exit__] did: what it returned, the client afterwards, the
    flushes it ran in order, and the exception it logged and dropped, if
    any. *)
Record exit_run := {
  suppress : bool;
  x_after : SurfaClient;
  x_flushes : list flush_run;
  swallowed : option exn;
}.

(** [SurfaClient.__exit__].  Its three arguments are not read.  [t_end] is
    the transport a flush from inside [session_ended] meets, [t_flush] the
    one the final [flush] meets; an exception of the first call skips the
    second. *)
Definition __exit__ `{Repr} (t_end t_flush : transport) (now : string)
    (c : SurfaClient) : exit_run :=
  let ended := session_ended t_end now c in
  match t_returned ended with
  | Ok _ =>
      let r := flush t_flush (t_after ended) in
      {| suppress := false; x_after := after r;
         x_flushes := flush_of ended ++ [r];
         swallowed :=
           match returned r with Raise e => Some e | Ok _ => None end |}
  | Raise e =>
      {| suppress := false; x_after := t_after ended;
         x_flushes := flush_of ended; swallowed := Some e |}
  end.

End teardown.

(** ** Notions used by the further properties *)

Module notions.
Import events client session.

(** The ingest key has one of the two prefixes and at least 20
    characters. *)
Definition well_formed_key (key : string) : Prop :=
  ((∃ rest, key = "sk_live_" +:+ rest) ∨ (∃ rest, key = "sk_test_" +:+ rest)) ∧
  (20 ≤ String.length key)%nat.

(** The string does not end in a slash. *)
Fixpoint ends_in_slash (s : string) : bool :=
  match s with
  | EmptyString => false
  | String a EmptyString => Ascii.eqb a "/"%char
  | String _ s' => ends_in_slash s'
  end.

(** [n] slashes. *)
Fixpoint slashes (n : nat) : string :=
  match n with O => EmptyString | S n => String "/"%char (slashes n) end.

(** The event has a non-empty string [kind], and its [ts], if it has one,
    is a string. *)
Definition well_formed_event (event : dict) : Prop :=
  (∃ kind, event !! "kind" = Some (PStr kind) ∧ kind ≠ "") ∧
  (∀ ts, event !! "ts" = Some ts → is_str ts = true).

(** [requests.post] raised [Timeout] or [ConnectionError]. *)
Definition network_failure (o : outcome) : option string :=
  match o with
  | RaisesTimeout e | RaisesConnectionError e => Some e
  | _ => None
  end.

(** The calls track these events, one each, in order. *)
Definition tracks (ks : list call) (events : list dict) : Prop :=
  Forall2 (λ k event, ∃ t, k = CallTrack t event) ks events.

(** The requests of all the flushes of a log, in order. *)
Definition requests_of (log : list flush_call) : list request :=
  concat (map (λ fc, posts (run fc)) log).

(** The configuration a client is constructed with, and its session id. *)
Definition configuration (c : SurfaClient)
    : string * string * Z * Z * string :=
  (ingest_key c, api_url c, flush_at c, timeout_s c, session_id c).

(** The fields [set_runtime] stores before the extra ones. *)
Definition runtime_base (provider model : string) (mode : option string)
    (k : string) : option pyval :=
  if String.eqb k "provider" then Some (PStr provider)
  else if String.eqb k "model" then Some (PStr model)
  else if String.eqb k "mode" then
    match mode with
    | Some m => if String.eqb m "" then None else Some (PStr m)
    | None => None
    end
  else None.

(** What a named argument of [create_event] leaves in the event: nothing
    when it is [None]. *)
Definition given (v : pyval) : option pyval :=
  if is_none v then None else Some v.

(** An event with the current time that [validate_event] accepts. *)
Definition stamped_valid (now : string) (e : dict) : Prop :=
  validate_event e = Ok true ∧ e !! "ts" = Some (PStr now).

End notions.

(** ** Concrete inputs for the further properties *)

Module scenarios.
Import events client session.

(** A client with threshold 2 that holds one event. *)
Definition one_of_two : SurfaClient :=
  set_buffer [samples.tool_event] samples.threshold_two.

(** A transport that answers 401. *)
Definition unauthorized : transport :=
  script [Response 401 "Unauthorized" None].

(** A transport that times out three times. *)
Definition unreachable : transport :=
  script [RaisesTimeout "timed out"; RaisesConnectionError "refused";
          RaisesTimeout "timed out"].

(** Two tracking calls. *)
Definition two_tracks : list call :=
  [CallTrack (script []) samples.tool_event;
   CallTrack (script []) samples.other_event].

End scenarios.

(** * Properties *)

Import events client session responses threads.

(** Case analysis on every test a hypothesis about a conditional still
    depends on. *)
Ltac case_ifs H :=
  repeat match type of H with
         | (if ?b then _ else _) = _ => destruct b eqn:?
         | match ?r with Ok _ => _ | Raise _ => _ end = _ => destruct r eqn:?
         end.

Section retry_loop.
Context `{Repr}.

(** Membership in a status list, as a disjunction. *)
Lemma in_statuses_true status l :
  in_statuses status l = true ↔ status ∈ l.
Proof.
  unfold in_statuses. rewrite existsb_exists. split.
  - intros (x & Hx & Hxs). apply Z.eqb_eq in Hxs. subst x.
    by apply list_elem_of_In.
  - intros Hin. exists status. split; [by apply list_elem_of_In|].
    apply Z.eqb_refl.
Qed.

Lemma retryable_statuses status :
  in_statuses status retry_statuses = true →
  status = 429 ∨ status = 500 ∨ status = 502 ∨ status = 503 ∨ status = 504.
Proof.
  rewrite in_statuses_true. unfold retry_statuses.
  rewrite !elem_of_cons, elem_of_nil. tauto.
Qed.

(** A pass through the loop body sleeps only before the last attempt, for
    the backoff of its attempt number, and only on a retryable outcome. *)
Lemma handle_sleep o attempt e d :
  handle o attempt = SleepAndContinue e d →
  (attempt < max_retries - 1)%nat ∧ d = backoff attempt ∧ retryable o = true.
Proof.
  unfold handle, retryable. intros Hh.
  destruct o as [status text js | m | m | m];
    case_ifs Hh; try discriminate;
    inversion Hh; subst; (split; [|split; [reflexivity|done]]);
    match goal with
    | Hlt : (_ <? _)%nat = true |- _ => apply Nat.ltb_lt in Hlt; exact Hlt
    end.
Qed.

(** A retryable outcome before the last attempt ends in a sleep. *)
Lemma handle_retried o attempt :
  retryable o = true → (attempt < max_retries - 1)%nat →
  ∃ e, handle o attempt = SleepAndContinue e (backoff attempt).
Proof.
  intros Hr Hlt. apply Nat.ltb_lt in Hlt. unfold handle.
  destruct (attempt <? max_retries - 1)%nat; [|discriminate].
  destruct o as [status text js | m | m | m]; cbn [retryable] in Hr;
    [|eauto|eauto|discriminate].
  apply retryable_statuses in Hr.
  destruct Hr as [-> | [-> | [-> | [-> | ->]]]]; cbn -[backoff]; eauto.
Qed.

(** The loop body returns exactly on a 2xx response, with the parsed body,
    or the empty mapping when the body does not parse. *)
Lemma handle_return o attempt data :
  handle o attempt = Return data →
  ∃ status text js,
    o = Response status text js ∧ 200 ≤ status < 300 ∧
    data = default (PDict ∅) js.
Proof.
  unfold handle. intros Hh.
  destruct o as [status text js | m | m | m];
    case_ifs Hh; try discriminate.
  inversion Hh; subst. exists status, text, js.
  repeat split; lia.
Qed.

(** The statements of the success branch on a JSON object. *)
Lemma flush_commit_object c (body : dict) :
  flush_commit c (PDict body)
  = Ok (let c :=
          match body !! "execution_id" with
          | Some v =>
              if is_none (execution_id c) then set_execution_id v c else c
          | None => c
          end in
        let c :=
          if runtime_info_due c then set_runtime_info_emitted true c else c in
        set_buffer [] c).
Proof.
  unfold flush_commit, py_in, py_getitem. cbn [bind].
  destruct (body !! "execution_id") as [v|] eqn:Hv.
  - rewrite bool_decide_eq_true_2 by eauto. cbn [andb].
    by destruct (is_none (execution_id c)).
  - rewrite bool_decide_eq_false_2 by (intros [? ?]; discriminate). done.
Qed.

(** On a body that is no object the success branch either assigns no
    execution id or raises [TypeError]. *)
Lemma flush_commit_other c data :
  (∀ body, data ≠ PDict body) →
  flush_commit c data
  = Ok (set_buffer [] (if runtime_info_due c
                       then set_runtime_info_emitted true c else c))
  ∨ ∃ m, flush_commit c data = Raise (TypeError m).
Proof.
  intros Hd. unfold flush_commit, py_in, py_getitem.
  destruct data as [| b | z | q | s | l | d]; cbn [bind]; eauto.
  - destruct (contains "execution_id" s && is_none (execution_id c));
      cbn [bind]; eauto.
  - destruct (existsb _ l && is_none (execution_id c)); cbn [bind]; eauto.
  - by destruct (Hd d).
Qed.

(** The two ways the success branch ends on a body that is no object. *)
Ltac other_body Hc :=
  match type of Hc with
  | flush_commit ?c ?d = _ =>
      let Ho := fresh "Ho" in
      let m := fresh "m" in
      destruct (flush_commit_other c d) as [Ho | [m Ho]];
      [intros ?; discriminate | rewrite Ho in Hc | rewrite Ho in Hc]
  end.

(** On a body that is a JSON object, or does not parse, the success
    branch goes through. *)
Lemma flush_commit_succeeds c js :
  object_or_invalid js →
  ∃ c', flush_commit c (default (PDict ∅) js) = Ok c'.
Proof.
  destruct js as [[| b | z | q | s | l | d]|]; try done; intros _;
    eexists; apply flush_commit_object.
Qed.

(** The success branch raises nothing but [TypeError], and only on a body
    that is no JSON object. *)
Lemma flush_commit_raises c data e :
  flush_commit c data = Raise e →
  (∃ m, e = TypeError m) ∧ ∀ body, data ≠ PDict body.
Proof.
  intros He. destruct data as [| b | z | q | s | l | d].
  7:{ rewrite flush_commit_object in He. discriminate. }
  all: split; [|intros ?; discriminate].
  all: other_body He; [discriminate|]; inversion He; eauto.
Qed.

(** The success branch empties the buffer and leaves the configuration, the
    session id, the runtime and the ended flag as they were. *)
Lemma flush_commit_fields c data c' :
  flush_commit c data = Ok c' →
  _buffer c' = [] ∧
  ingest_key c' = ingest_key c ∧ api_url c' = api_url c ∧
  flush_at c' = flush_at c ∧ timeout_s c' = timeout_s c ∧
  session_id c' = session_id c ∧ _runtime c' = _runtime c ∧
  _session_ended c' = _session_ended c.
Proof.
  intros Hc. destruct data as [| b | z | q | s | l | d].
  7:{ rewrite flush_commit_object in Hc. inversion Hc; subst c'. cbn zeta.
      destruct (d !! "execution_id") as [v|];
        [destruct (is_none (execution_id c))|];
        match goal with
        | |- context [runtime_info_due ?x] => destruct (runtime_info_due x)
        end; cbn; done. }
  all: other_body Hc; [|discriminate].
  all: inversion Hc; subst c'; destruct (runtime_info_due c); cbn; done.
Qed.

(** The execution id after the success branch: the stored one when there is
    one, otherwise the one of the response body, if it is an object that has
    one. *)
Lemma flush_commit_execution_id c data c' :
  flush_commit c data = Ok c' →
  execution_id c' =
    if is_none (execution_id c)
    then first_execution_id [data]
    else execution_id c.
Proof.
  intros Hc. destruct data as [| b | z | q | s | l | d].
  7:{ rewrite flush_commit_object in Hc. inversion Hc; subst c'. cbn zeta.
      cbn [first_execution_id].
      destruct (d !! "execution_id") as [v|];
        [destruct (is_none (execution_id c)) eqn:Hn|];
        match goal with
        | |- context [runtime_info_due ?x] => destruct (runtime_info_due x)
        end; cbn; try rewrite Hn; try done.
      all: try (by destruct v).
      all: destruct (execution_id c); done. }
  all: other_body Hc; [|discriminate].
  all: inversion Hc; subst c'; destruct (runtime_info_due c); cbn;
    by destruct (execution_id c).
Qed.

(** The emitted flag after the success branch. *)
Lemma flush_commit_emitted c data c' :
  flush_commit c data = Ok c' →
  _runtime_info_emitted c' =
    _runtime_info_emitted c || from_option dict_truthy false (_runtime c).
Proof.
  intros Hc.
  assert (Hd : ∀ x : SurfaClient,
            _runtime x = _runtime c →
            _runtime_info_emitted x = _runtime_info_emitted c →
            _runtime_info_emitted
              (set_buffer [] (if runtime_info_due x
                              then set_runtime_info_emitted true x else x))
            = _runtime_info_emitted c
              || from_option dict_truthy false (_runtime c)).
  { intros x Hr He. unfold runtime_info_due. rewrite Hr, He.
    destruct (from_option dict_truthy false (_runtime c)),
      (_runtime_info_emitted c) eqn:Hem; cbn; try done; by rewrite He. }
  destruct data as [| b | z | q | s | l | d].
  7:{ rewrite flush_commit_object in Hc. inversion Hc; subst c'. cbn zeta.
      destruct (d !! "execution_id") as [v|];
        [destruct (is_none (execution_id c))|]; by apply Hd. }
  all: other_body Hc; [|discriminate].
  all: inversion Hc; subst c'; by apply Hd.
Qed.

(** The shape of every run of [flush] on a non-empty buffer: attempt number
    [n] is made, after [n] sleeps, and it is the last: it returns, or it
    raises and the client is as it was. *)
Lemma flush_shape (t : transport) (c : SurfaClient) :
  _buffer c ≠ [] →
  ∃ n : nat,
    attempted t n ∧
    posts (flush t c) = replicate (S n) (build_request c) ∧
    sleeps (flush t c) = map backoff (seq 0 n) ∧
    ((∃ data c', handle (t n) n = Return data ∧
                 flush_commit c data = Ok c' ∧
                 returned (flush t c) = Ok (Some data) ∧
                 after (flush t c) = c') ∨
     (∃ e, (handle (t n) n = Throw e ∨
            ∃ data, handle (t n) n = Return data ∧
                    flush_commit c data = Raise e) ∧
           returned (flush t c) = Raise e ∧ after (flush t c) = c)).
Proof.
  intros Hne. unfold flush, flush_shared.
  destruct (_buffer c) as [|e0 b] eqn:Hb; [done|]. clear Hne.
  cbn [max_retries seq for_attempts]. unfold alone.
  assert (Ha0 : attempted t 0).
  { split; [unfold max_retries; lia | intros i Hi; lia]. }
  destruct (handle (t 0%nat) 0) as [d0|x0|l0 q0] eqn:H0.
  1: destruct (flush_commit c d0) as [c0|x0] eqn:Hc0.
  1-3: exists 0%nat; split; [exact Ha0|]; do 2 (split; [reflexivity|]).
  1: left; by exists d0, c0.
  1: right; exists x0; split; [right; by exists d0 | done].
  1: right; exists x0; split; [by left | done].
  apply handle_sleep in H0 as Hq0. destruct Hq0 as (_ & -> & Hr0).
  assert (Ha1 : attempted t 1).
  { split; [unfold max_retries; lia|].
    intros i Hi. by assert (i = 0%nat) as -> by lia. }
  destruct (handle (t 1%nat) 1) as [d1|x1|l1 q1] eqn:H1.
  1: destruct (flush_commit c d1) as [c1|x1] eqn:Hc1.
  1-3: exists 1%nat; split; [exact Ha1|]; do 2 (split; [reflexivity|]).
  1: left; by exists d1, c1.
  1: right; exists x1; split; [right; by exists d1 | done].
  1: right; exists x1; split; [by left | done].
  apply handle_sleep in H1 as Hq1. destruct Hq1 as (_ & -> & Hr1).
  assert (Ha2 : attempted t 2).
  { split; [unfold max_retries; lia|].
    intros i Hi. by assert (i = 0%nat ∨ i = 1%nat) as [-> | ->] by lia. }
  destruct (handle (t 2%nat) 2) as [d2|x2|l2 q2] eqn:H2.
  1: destruct (flush_commit c d2) as [c2|x2] eqn:Hc2.
  1-3: exists 2%nat; split; [exact Ha2|]; do 2 (split; [reflexivity|]).
  1: left; by exists d2, c2.
  1: right; exists x2; split; [right; by exists d2 | done].
  1: right; exists x2; split; [by left | done].
  apply handle_sleep in H2 as (Hlt & _). unfold max_retries in Hlt. lia.
Qed.

(** The attempt at which a run of [flush] ends is the first one that does
    not end in a sleep: when attempt [n] is made and returns or raises,
    the run is [n] sleeps, [n + 1] posts and the end of that attempt. *)
Lemma flush_ends_at (t : transport) (c : SurfaClient) (n : nat) :
  _buffer c ≠ [] → attempted t n →
  (∀ e d, handle (t n) n ≠ SleepAndContinue e d) →
  posts (flush t c) = replicate (S n) (build_request c) ∧
  sleeps (flush t c) = map backoff (seq 0 n) ∧
  ((∃ data c', handle (t n) n = Return data ∧
               flush_commit c data = Ok c' ∧
               returned (flush t c) = Ok (Some data) ∧
               after (flush t c) = c') ∨
   (∃ e, (handle (t n) n = Throw e ∨
          ∃ data, handle (t n) n = Return data ∧
                  flush_commit c data = Raise e) ∧
         returned (flush t c) = Raise e ∧ after (flush t c) = c)).
Proof.
  intros Hne [Hn Hbefore] Hlast.
  destruct (flush_shape t c Hne) as (n' & [Hn' Hbefore'] & Hp & Hs & Hcase).
  assert (n = n') as ->; [|done].
  destruct (Nat.lt_trichotomy n n') as [Hlt | [Heq | Hgt]]; [|done|].
  - destruct (handle_retried (t n) n (Hbefore' n Hlt)) as [e He];
      [unfold max_retries in *; lia|].
    by destruct (Hlast e (backoff n)).
  - destruct (handle_retried (t n') n' (Hbefore n' Hgt)) as [e He];
      [unfold max_retries in *; lia|].
    destruct Hcase as [(d & c' & Hh & _) | (x & [Hh | (d & Hh & _)] & _)];
      congruence.
Qed.

(** An attempt that is made and raises ends the run. *)
Lemma flush_throws (t : transport) (c : SurfaClient) (n : nat) e :
  _buffer c ≠ [] → attempted t n → handle (t n) n = Throw e →
  returned (flush t c) = Raise e ∧ after (flush t c) = c ∧
  posts (flush t c) = replicate (S n) (build_request c) ∧
  sleeps (flush t c) = map backoff (seq 0 n).
Proof.
  intros Hne Hn Hh.
  destruct (flush_ends_at t c n Hne Hn) as (Hp & Hs & Hcase).
  { intros x d. rewrite Hh. discriminate. }
  destruct Hcase as [(d & c' & Hd & _) | (x & [Hx | (d & Hd & _)] & Hr & Ha)];
    try congruence.
  rewrite Hh in Hx. inversion Hx; subst x. done.
Qed.

(** An attempt that is made and gets a 2xx response ends the run: in a
    return, or in the error of the statements that follow the parsing. *)
Lemma flush_returns (t : transport) (c : SurfaClient) (n : nat) data :
  _buffer c ≠ [] → attempted t n → handle (t n) n = Return data →
  posts (flush t c) = replicate (S n) (build_request c) ∧
  sleeps (flush t c) = map backoff (seq 0 n) ∧
  match flush_commit c data with
  | Ok c' => returned (flush t c) = Ok (Some data) ∧ after (flush t c) = c'
  | Raise e => returned (flush t c) = Raise e ∧ after (flush t c) = c
  end.
Proof.
  intros Hne Hn Hh.
  destruct (flush_ends_at t c n Hne Hn) as (Hp & Hs & Hcase).
  { intros x d. rewrite Hh. discriminate. }
  split; [exact Hp|]. split; [exact Hs|].
  destruct Hcase
    as [(d & c' & Hd & Hc & Hr & Ha) | (x & [Hx | (d & Hd & Hc)] & Hr & Ha)];
    try congruence.
  - rewrite Hh in Hd. inversion Hd; subst d. by rewrite Hc.
  - rewrite Hh in Hd. inversion Hd; subst d. by rewrite Hc.
Qed.

(** The message of the two error branches: on an object, and on a body
    that does not parse, it is the status text with the [error] field
    appended in full. *)
Lemma with_error_field_object error_msg js :
  object_or_invalid js →
  with_error_field error_msg js = Ok (message_with_field error_msg js).
Proof.
  unfold with_error_field, message_with_field, error_field, py_in, py_getitem.
  destruct js as [[| b | z | q | s | l | d]|]; try done. intros _. cbn [bind].
  destruct (d !! "error") as [v|] eqn:Hv.
  - by rewrite bool_decide_eq_true_2 by eauto.
  - by rewrite bool_decide_eq_false_2 by (intros [? ?]; discriminate).
Qed.

(** When the message is built at all, it is that message. *)
Lemma with_error_field_ok error_msg js m :
  with_error_field error_msg js = Ok m → m = message_with_field error_msg js.
Proof.
  destruct js as [[| b | z | q | s | l | d]|].
  7,8: rewrite with_error_field_object by done; congruence.
  all: unfold with_error_field, message_with_field, error_field, py_in,
         py_getitem; cbn [bind]; try discriminate.
  - destruct (contains "error" s); cbn [bind]; congruence.
  - destruct (existsb _ l); cbn [bind]; congruence.
Qed.

(** Building the message raises nothing but [TypeError], and only on a body
    that parses and is no object. *)
Lemma with_error_field_raises error_msg js e :
  with_error_field error_msg js = Raise e →
  (∃ m, e = TypeError m) ∧ ¬ object_or_invalid js.
Proof.
  destruct js as [[| b | z | q | s | l | d]|].
  7,8: rewrite with_error_field_object by done; discriminate.
  all: unfold with_error_field, py_in, py_getitem; cbn [bind].
  all: intros He; split; [|by intros []].
  1-4: inversion He; eauto.
  - destruct (contains "error" s); cbn [bind] in He; inversion He; eauto.
  - destruct (existsb _ l); cbn [bind] in He; inversion He; eauto.
Qed.

(** 2xx: the success branch. *)
Lemma handle_success status text js attempt :
  200 ≤ status < 300 →
  handle (Response status text js) attempt = Return (default (PDict ∅) js).
Proof.
  intros Hs. unfold handle.
  assert ((200 <=? status) && (status <? 300) = true) as ->; [|done].
  apply andb_true_iff. split; [apply Z.leb_le | apply Z.ltb_lt]; lia.
Qed.

(** 401 and 403: [SurfaAuthError], whatever the attempt, unless building
    its message raises. *)
Lemma handle_auth status text js attempt :
  status = 401 ∨ status = 403 →
  handle (Response status text js) attempt =
    match with_error_field ("Authentication failed: " +:+ pretty status) js
    with
    | Ok error_msg => Throw (SurfaAuthError error_msg)
    | Raise e => Throw e
    end.
Proof. intros [-> | ->]; reflexivity. Qed.

(** A status of [retry_statuses]: sleep and go on before the last attempt,
    raise at the last one. *)
Lemma handle_retryable status text js attempt :
  in_statuses status retry_statuses = true →
  handle (Response status text js) attempt =
    if (attempt <? max_retries - 1)%nat
    then SleepAndContinue
           (SurfaIngestError ("Server error: " +:+ pretty status) status
                             (slice_to 500 text)) (backoff attempt)
    else Throw (SurfaIngestError ("Server error: " +:+ pretty status) status
                                 (slice_to 500 text)).
Proof.
  intros Hs. apply retryable_statuses in Hs.
  destruct Hs as [-> | [-> | [-> | [-> | ->]]]]; reflexivity.
Qed.

(** The test of the client-error branch, at the point where it is made. *)
Lemma client_error_test status :
  in_statuses status [401; 403] = false →
  (400 <=? status) && (status <? 500)
  && negb (in_statuses status retry_statuses)
  = client_error status.
Proof.
  intros Ha. unfold client_error. rewrite Ha. cbn [negb].
  by rewrite andb_true_r.
Qed.

(** Every other status raises at once: a 4xx outside 401, 403 and 429 as a
    client error, unless building its message raises; anything else as a
    server error. *)
Lemma handle_other status text js attempt :
  ¬ 200 ≤ status < 300 →
  status ≠ 401 → status ≠ 403 →
  in_statuses status retry_statuses = false →
  handle (Response status text js) attempt =
    if client_error status then
      match with_error_field ("Client error: " +:+ pretty status) js with
      | Ok error_msg =>
          Throw (SurfaIngestError error_msg status (slice_to 500 text))
      | Raise e => Throw e
      end
    else Throw (SurfaIngestError ("Server error: " +:+ pretty status) status
                                 (slice_to 500 text)).
Proof.
  intros H2 H401 H403 Hr. unfold handle.
  assert ((200 <=? status) && (status <? 300) = false) as ->.
  { apply andb_false_iff.
    destruct (Z.leb_spec 200 status), (Z.ltb_spec status 300); auto; lia. }
  assert (Ha : in_statuses status [401; 403] = false).
  { apply not_true_is_false. rewrite in_statuses_true.
    rewrite !elem_of_cons, elem_of_nil. lia. }
  rewrite Ha, (client_error_test status Ha), Hr.
  by destruct (client_error status).
Qed.

(** A client error raises at once, whatever the attempt. *)
Lemma handle_client_error status text js attempt :
  client_error status = true →
  handle (Response status text js) attempt =
    match with_error_field ("Client error: " +:+ pretty status) js with
    | Ok error_msg =>
        Throw (SurfaIngestError error_msg status (slice_to 500 text))
    | Raise e => Throw e
    end.
Proof.
  intros Hc. pose proof Hc as Hc'. unfold client_error in Hc'.
  apply andb_true_iff in Hc' as [Hc' Hr].
  apply andb_true_iff in Hc' as [H4 Ha].
  apply negb_true_iff in Hr, Ha.
  apply andb_true_iff in H4 as [Hlo Hhi].
  apply Z.leb_le in Hlo. apply Z.ltb_lt in Hhi.
  apply not_true_iff_false in Ha. rewrite in_statuses_true in Ha.
  rewrite !elem_of_cons, elem_of_nil in Ha.
  rewrite handle_other by (done || lia). by rewrite Hc.
Qed.


(** A [SurfaIngestError] carries the status of the response that caused it
    and the first 500 characters of its text; for a status of
    [retry_statuses] it is raised at the last attempt only.  Its message is
    the client-error text with the [error] field of the body appended, for
    a client error, and the server-error text otherwise. *)
Lemma handle_ingest_error o attempt m status body :
  handle o attempt = Throw (SurfaIngestError m status body) →
  ∃ text js,
    o = Response status text js ∧ body = slice_to 500 text ∧
    ¬ 200 ≤ status < 300 ∧ status ≠ 401 ∧ status ≠ 403 ∧
    (in_statuses status retry_statuses = true →
     attempt = (max_retries - 1)%nat ∨ (max_retries - 1 < attempt)%nat) ∧
    m = if client_error status
        then message_with_field ("Client error: " +:+ pretty status) js
        else "Server error: " +:+ pretty status.
Proof.
  unfold handle. intros Hh.
  destruct o as [s text js | e | e | e].
  - destruct ((200 <=? s) && (s <? 300)) eqn:H2; [discriminate|].
    assert (Hn2 : ¬ 200 ≤ s < 300).
    { intros [? ?]. apply andb_false_iff in H2 as [H2 | H2];
        [apply Z.leb_gt in H2 | apply Z.ltb_ge in H2]; lia. }
    destruct (in_statuses s [401; 403]) eqn:Ha.
    { destruct (with_error_field _ js) as [x|x] eqn:Hw; [discriminate|].
      apply with_error_field_raises in Hw as [[x' ->] _]. discriminate. }
    assert (Hna : s ≠ 401 ∧ s ≠ 403).
    { apply not_true_iff_false in Ha. rewrite in_statuses_true in Ha.
      rewrite !elem_of_cons, elem_of_nil in Ha. lia. }
    rewrite (client_error_test s Ha) in Hh.
    destruct (client_error s) eqn:Hc.
    + destruct (with_error_field _ js) as [x|x] eqn:Hw.
      * apply with_error_field_ok in Hw. inversion Hh; subst.
        exists text, js. rewrite Hc. repeat split; try tauto.
        intros Hr. unfold client_error in Hc. rewrite Hr in Hc.
        by rewrite andb_false_r in Hc.
      * apply with_error_field_raises in Hw as [[x' ->] _]. discriminate.
    + destruct (in_statuses s retry_statuses) eqn:Hr.
      * destruct (attempt <? max_retries - 1)%nat eqn:Hlt; [discriminate|].
        inversion Hh; subst. exists text, js. rewrite Hc.
        repeat split; try tauto.
        intros _. apply Nat.ltb_ge in Hlt. lia.
      * inversion Hh; subst. exists text, js. rewrite Hc.
        repeat split; try tauto. rewrite Hr. discriminate.
  - destruct (attempt <? max_retries - 1)%nat; discriminate.
  - destruct (attempt <? max_retries - 1)%nat; discriminate.
  - discriminate.
Qed.

(** A [SurfaAuthError] comes from a 401 or a 403 and carries the message
    only. *)
Lemma handle_auth_error o attempt m :
  handle o attempt = Throw (SurfaAuthError m) →
  ∃ status text js,
    o = Response status text js ∧ (status = 401 ∨ status = 403) ∧
    m = message_with_field ("Authentication failed: " +:+ pretty status) js.
Proof.
  unfold handle. intros Hh.
  destruct o as [s text js | e | e | e].
  - destruct ((200 <=? s) && (s <? 300)); [discriminate|].
    destruct (in_statuses s [401; 403]) eqn:Ha.
    + destruct (with_error_field _ js) as [x|x] eqn:Hw.
      * apply with_error_field_ok in Hw. inversion Hh; subst.
        exists s, text, js. split; [done|]. split; [|done].
        apply in_statuses_true in Ha.
        rewrite !elem_of_cons, elem_of_nil in Ha. tauto.
      * apply with_error_field_raises in Hw as [[x' ->] _]. discriminate.
    + case_ifs Hh; try discriminate.
      match goal with
      | Hw : with_error_field _ _ = Raise _ |- _ =>
          apply with_error_field_raises in Hw as [[x' ->] _]
      end. discriminate.
  - destruct (attempt <? max_retries - 1)%nat; discriminate.
  - destruct (attempt <? max_retries - 1)%nat; discriminate.
  - discriminate.
Qed.


(** A slice has at most the requested length. *)
Lemma slice_to_length n s : (String.length (slice_to n s) ≤ n)%nat.
Proof.
  unfold slice_to. revert s.
  induction n as [|n IH]; intros [|a s]; cbn; try lia.
  specialize (IH s). lia.
Qed.

(** The backoff before retry number [attempt]. *)
Lemma backoff_value attempt :
  (backoff attempt == base_delay * inject_Z (2 ^ Z.of_nat attempt))%Q.
Proof. unfold backoff. apply Qred_correct. Qed.

End retry_loop.

Section flush_properties.
Context `{Repr}.

(** C1.  [flush] on a non-empty buffer is all or nothing.  Either it returns
    the parsed body of a 2xx response, with the buffer emptied, the
    execution id possibly set from that body, the emitted flag possibly set,
    and every other field as before; or it raises and the client is exactly
    the one it was called on, so that the next [flush] starts from the same
    buffer and does, against any transport, what it would have done
    before. *)
Theorem C1_flush_atomic (t : transport) (c : SurfaClient) :
  _buffer c ≠ [] →
  fully_succeeded t c (flush t c) ∨
  (fully_failed c (flush t c) ∧
   _buffer (after (flush t c)) = _buffer c ∧
   ∀ t', flush t' (after (flush t c)) = flush t' c).
Proof.
  intros Hne.
  destruct (flush_shape t c Hne)
    as (n & _ & _ & _ & [(data & c' & Hh & Hc & Hr & Ha) | (e & _ & Hr & Ha)]).
  - left. exists data. split; [exact Hr|].
    apply handle_return in Hh as (status & text & js & Ho & Hs & Hd).
    split; [by exists n, status, text, js|].
    rewrite Ha.
    pose proof (flush_commit_fields c data c' Hc)
      as (Hb & Hk & Hu & Hf & Ht & Hi & Hrt & Hse).
    split; [exact Hb|]. split.
    { rewrite (flush_commit_execution_id c data c' Hc).
      destruct (execution_id c) eqn:Hx; cbn [is_none]; try (by left).
      destruct data as [| b | z | q | s | l | body];
        cbn [first_execution_id]; try (by left).
      destruct (body !! "execution_id") as [v|] eqn:Hv; [|by left].
      right. split; [done|]. exists body. split; [done|].
      rewrite Hv. by destruct v. }
    split.
    { rewrite (flush_commit_emitted c data c' Hc).
      destruct (_runtime_info_emitted c),
        (from_option dict_truthy false (_runtime c)); cbn; auto. }
    done.
  - right. split; [by exists e|]. rewrite Ha. done.
Qed.

End flush_properties.

(** C1 at the sample client, whose buffer holds one event, against a
    transport that answers 200. *)
Lemma C1_flush_atomic_witness :
  _buffer samples.one_buffered ≠ [] ∧
  (fully_succeeded (script [Response 200 "{}" (Some (PDict ∅))]) samples.one_buffered
     (flush (H := samples.repr_unread) (script [Response 200 "{}" (Some (PDict ∅))])
            samples.one_buffered) ∨
   (fully_failed samples.one_buffered
      (flush (H := samples.repr_unread) (script [Response 200 "{}" (Some (PDict ∅))])
             samples.one_buffered) ∧
    _buffer (after (flush (H := samples.repr_unread)
                      (script [Response 200 "{}" (Some (PDict ∅))])
                      samples.one_buffered))
    = _buffer samples.one_buffered ∧
    ∀ t', flush (H := samples.repr_unread) t'
            (after (flush (H := samples.repr_unread)
                      (script [Response 200 "{}" (Some (PDict ∅))])
                      samples.one_buffered))
          = flush (H := samples.repr_unread) t' samples.one_buffered)).
Proof.
  split; [discriminate|].
  apply (C1_flush_atomic (H := samples.repr_unread)
           (script [Response 200 "{}" (Some (PDict ∅))]) samples.one_buffered).
  discriminate.
Defined.

Section retry_properties.
Context `{Repr}.

(** C4.  On a non-empty buffer [flush] posts at least once and at most
    [max_retries] = 3 times, and before retry number [i] (counted from 0) it
    sleeps [backoff i] = 0.5 * 2^i seconds, so the delays are a prefix of
    0.5, 1.0.  Against the responses 503, 503, 200 it sleeps 0.5 and then
    1.0 and posts three times; it returns the parsed body of the 200, with
    the buffer emptied, when that body is a JSON object or does not parse.
    Against a 401 it posts once, sleeps not at all and leaves the client as
    it was; it raises [SurfaAuthError] when the body is a JSON object or
    does not parse.  On a body that parses to another JSON value the code
    departs from this: the 401 ends in [TypeError] when the body is a
    number, a boolean or [null], and so does the 200; nothing else can
    happen. *)
Theorem C4_retry_backoff (c : SurfaClient) :
  _buffer c ≠ [] →
  max_retries = 3%nat ∧ base_delay = (1 # 2)%Q ∧
  (∀ t : transport,
     (1 ≤ length (posts (flush t c)) ≤ max_retries)%nat ∧
     sleeps (flush t c)
     = map backoff (seq 0 (length (posts (flush t c)) - 1))) ∧
  (∀ attempt,
     (backoff attempt == base_delay * inject_Z (2 ^ Z.of_nat attempt))%Q) ∧
  (∀ x1 j1 x2 j2 x3 j3,
     let r := flush (script [Response 503 x1 j1; Response 503 x2 j2;
                             Response 200 x3 j3]) c in
     sleeps r = [(1 # 2)%Q; 1%Q] ∧
     length (posts r) = 3%nat ∧
     (object_or_invalid j3 →
      returned r = Ok (Some (default (PDict ∅) j3)) ∧
      _buffer (after r) = []) ∧
     (returned r = Ok (Some (default (PDict ∅) j3)) ∧ _buffer (after r) = [] ∨
      ∃ m, returned r = Raise (TypeError m) ∧ ¬ object_or_invalid j3 ∧
           after r = c)) ∧
  (∀ x j,
     let r := flush (script [Response 401 x j]) c in
     sleeps r = [] ∧ length (posts r) = 1%nat ∧ after r = c ∧
     (object_or_invalid j → ∃ m, returned r = Raise (SurfaAuthError m)) ∧
     ((∃ m, returned r = Raise (SurfaAuthError m)) ∨
      ∃ m, returned r = Raise (TypeError m) ∧ ¬ object_or_invalid j)) ∧
  (∀ x v,
     v = PNone ∨ (∃ b, v = PBool b) ∨ (∃ z, v = PInt z) ∨ (∃ q, v = PFloat q) →
     (∃ m, returned (flush (script [Response 401 x (Some v)]) c)
           = Raise (TypeError m)) ∧
     (∀ x1 j1 x2 j2,
        ∃ m, returned (flush (script [Response 503 x1 j1; Response 503 x2 j2;
                                      Response 200 x (Some v)]) c)
             = Raise (TypeError m))).
Proof.
  intros Hne. do 2 (split; [reflexivity|]).
  split; [|split; [exact backoff_value|split; [|split]]].
  - intros t.
    destruct (flush_shape t c Hne) as (n & [Hn _] & Hp & Hs & _).
    rewrite Hp, Hs, length_replicate. split; [lia|].
    by replace (S n - 1)%nat with n by lia.
  - intros x1 j1 x2 j2 x3 j3. unfold flush, flush_shared.
    destruct (_buffer c) as [|e0 b] eqn:Hb; [done|].
    cbn [max_retries seq for_attempts script nth]. unfold alone.
    rewrite !handle_retryable by reflexivity.
    rewrite handle_success by lia. cbn [Nat.ltb Nat.leb Nat.sub].
    destruct (flush_commit c (default (PDict ∅) j3)) as [c'|e] eqn:Hc.
    + cbn. apply flush_commit_fields in Hc as [Hc _]. rewrite Hc.
      split; [done|]. split; [done|]. auto.
    + cbn. apply flush_commit_raises in Hc as [[m ->] Hn].
      assert (Hno : ¬ object_or_invalid j3).
      { destruct j3 as [[| ? | ? | ? | ? | ? | d]|]; cbn; auto.
        - by destruct (Hn d).
        - by destruct (Hn ∅). }
      split; [done|]. split; [done|]. split; [done|]. right. by exists m.
  - intros x j. unfold flush, flush_shared.
    destruct (_buffer c) as [|e0 b]; [done|].
    cbn [max_retries seq for_attempts script nth]. unfold alone.
    rewrite handle_auth by (by left).
    destruct (with_error_field _ j) as [m|e] eqn:Hw; cbn.
    + split; [done|]. split; [done|]. split; [done|]. eauto.
    + apply with_error_field_raises in Hw as [[m ->] Hn].
      split; [done|]. split; [done|]. split; [done|]. split; [done|].
      right. by exists m.
  - intros x v Hv. unfold flush, flush_shared.
    destruct (_buffer c) as [|e0 b]; [done|].
    cbn [max_retries seq for_attempts script nth]. unfold alone.
    split.
    + rewrite handle_auth by (by left).
      destruct Hv as [-> | [[? ->] | [[? ->] | [? ->]]]]; cbn; eauto.
    + intros x1 j1 x2 j2. rewrite !handle_retryable by reflexivity.
      rewrite handle_success by lia. cbn [Nat.ltb Nat.leb Nat.sub].
      destruct Hv as [-> | [[? ->] | [[? ->] | [? ->]]]]; cbn; eauto.
Qed.

End retry_properties.

(** C4 at the sample client, whose buffer holds one event: two sleeps of
    0.5 and 1.0 and the parsed body against 503, 503, 200. *)
Lemma C4_retry_backoff_witness :
  let r := flush (H := samples.repr_unread)
             (script [Response 503 "busy" None; Response 503 "busy" None;
                      samples.ok_response]) samples.one_buffered in
  _buffer samples.one_buffered ≠ [] ∧
  sleeps r = [(1 # 2)%Q; 1%Q] ∧
  returned r = Ok (Some samples.ok_body).
Proof.
  cbn zeta. split; [discriminate|].
  destruct (C4_retry_backoff (H := samples.repr_unread) samples.one_buffered)
    as (_ & _ & _ & _ & Hrun & _); [discriminate|].
  destruct (Hrun "busy" None "busy" None
              samples.ok_text (Some samples.ok_body)) as (Hs & _ & Hok & _).
  split; [exact Hs|]. apply Hok. exact I.
Defined.

(** Where the code departs from C4: the server answers 401 with the JSON
    body [null].  [flush] posts once and does not sleep, but what it raises
    is [TypeError], not [SurfaAuthError].  Likewise 503, 503 and then a 200
    whose body is the JSON number 5 end in [TypeError] after the two
    sleeps, not in a return; the buffer is as it was. *)
Lemma C4_counterexample :
  let r401 := flush (H := samples.repr_unread) (script [samples.null_401])
                samples.one_buffered in
  let r200 := flush (H := samples.repr_unread)
                (script [Response 503 "busy" None; Response 503 "busy" None;
                         samples.number_200]) samples.one_buffered in
  samples.null_401 = Response 401 "null" (Some PNone) ∧
  returned r401
  = Raise (TypeError "argument of this type is not iterable") ∧
  length (posts r401) = 1%nat ∧ sleeps r401 = [] ∧
  samples.number_200 = Response 200 "5" (Some (PInt 5)) ∧
  returned r200
  = Raise (TypeError "argument of this type is not iterable") ∧
  sleeps r200 = [(1 # 2)%Q; 1%Q] ∧
  after r200 = samples.one_buffered.
Proof. vm_compute. repeat split. Qed.

Section error_properties.
Context `{Repr}.

(** C5, amended.  On a non-empty buffer, and for the response of whatever
    attempt is made: a status that is not 2xx, not 401 or 403 and not in
    [retry_statuses] = 429, 500, 502, 503, 504 ends the flush there, with
    no further post and no further sleep, and the client is as it was; this
    covers the 4xx client errors and every other status, the 5xx codes 501
    and 505 to 599 among them.  What is raised is [SurfaIngestError] with
    that status and the first 500 characters of the text; for a client
    error this holds when the body is a JSON object or does not parse.  A
    [SurfaIngestError] comes from the response of the last post, and one
    whose status is in [retry_statuses] is raised only after all
    [max_retries] posts and both sleeps; three responses of such statuses
    do end in the error of the last one.  A 401 or 403 is no
    [SurfaIngestError]: it raises [SurfaAuthError], at once as well. *)
Theorem C5_ingest_error_classification (t : transport) (c : SurfaClient) :
  _buffer c ≠ [] →
  (∀ status, in_statuses status retry_statuses = true ↔
             status ∈ [429; 500; 502; 503; 504]) ∧
  (∀ n status text js,
     attempted t n → t n = Response status text js →
     ¬ 200 ≤ status < 300 → status ≠ 401 → status ≠ 403 →
     in_statuses status retry_statuses = false →
     length (posts (flush t c)) = S n ∧
     sleeps (flush t c) = map backoff (seq 0 n) ∧
     after (flush t c) = c ∧
     (client_error status = false ∨ object_or_invalid js →
      ∃ m, returned (flush t c)
           = Raise (SurfaIngestError m status (slice_to 500 text))) ∧
     ((∃ m, returned (flush t c)
            = Raise (SurfaIngestError m status (slice_to 500 text))) ∨
      (∃ m, returned (flush t c) = Raise (TypeError m)) ∧
      client_error status = true ∧ ¬ object_or_invalid js)) ∧
  (∀ m status body,
     returned (flush t c) = Raise (SurfaIngestError m status body) →
     (∃ text js,
        t (length (posts (flush t c)) - 1)%nat = Response status text js ∧
        ¬ 200 ≤ status < 300 ∧ status ≠ 401 ∧ status ≠ 403) ∧
     (in_statuses status retry_statuses = true →
      length (posts (flush t c)) = max_retries ∧
      sleeps (flush t c) = [backoff 0; backoff 1])) ∧
  (∀ s0 x0 j0 s1 x1 j1 s2 x2 j2,
     t 0%nat = Response s0 x0 j0 → t 1%nat = Response s1 x1 j1 →
     t 2%nat = Response s2 x2 j2 →
     in_statuses s0 retry_statuses = true →
     in_statuses s1 retry_statuses = true →
     in_statuses s2 retry_statuses = true →
     returned (flush t c)
     = Raise (SurfaIngestError ("Server error: " +:+ pretty s2) s2
                               (slice_to 500 x2)) ∧
     length (posts (flush t c)) = max_retries) ∧
  (∀ n status text js,
     attempted t n → t n = Response status text js →
     status = 401 ∨ status = 403 →
     length (posts (flush t c)) = S n ∧
     (∀ m s b, returned (flush t c) ≠ Raise (SurfaIngestError m s b)) ∧
     (object_or_invalid js →
      ∃ m, returned (flush t c) = Raise (SurfaAuthError m))).
Proof.
  intros Hne. split; [intros status; apply in_statuses_true|].
  split; [|split; [|split]].
  - intros n status text js Hn Ht H2 H401 H403 Hr.
    pose proof (handle_other status text js n H2 H401 H403 Hr) as Hh.
    rewrite <- Ht in Hh.
    destruct (client_error status) eqn:Hc;
      [destruct (with_error_field ("Client error: " +:+ pretty status) js)
         as [m|e] eqn:Hw|].
    all: destruct (flush_throws t c n _ Hne Hn Hh) as (Hret & Ha & Hp & Hs).
    all: rewrite Hp, Hs, length_replicate.
    all: do 3 (split; [done|]).
    + split; [eauto|]. left. eauto.
    + apply with_error_field_raises in Hw as [[m ->] Hno].
      split; [intros [? | ?]; done|]. right. eauto.
    + split; [eauto|]. left. eauto.
  - intros m status body Hret.
    destruct (flush_shape t c Hne)
      as (n & [Hn _] & Hp & Hs & [(d & c' & _ & _ & Hd & _) | (e & Hh & He & _)]).
    { rewrite Hret in Hd. discriminate. }
    rewrite Hret in He. inversion He; subst e.
    destruct Hh as [Hh | (d & _ & Hc)];
      [|apply flush_commit_raises in Hc as [[? ?] _]; discriminate].
    apply handle_ingest_error in Hh
      as (text & js & Ho & _ & H2 & H401 & H403 & Hlast & _).
    rewrite Hp, length_replicate.
    replace (S n - 1)%nat with n by lia.
    split; [by exists text, js|].
    intros Hr. specialize (Hlast Hr). unfold max_retries in *.
    assert (n = 2%nat) as -> by lia. by rewrite Hs.
  - intros s0 x0 j0 s1 x1 j1 s2 x2 j2 H0 H1 H2 Hr0 Hr1 Hr2.
    unfold flush, flush_shared.
    destruct (_buffer c) as [|e0 b]; [done|].
    cbn [max_retries seq for_attempts]. unfold alone. rewrite H0, H1, H2.
    rewrite !handle_retryable by done. cbn. done.
  - intros n status text js Hn Ht Hs.
    pose proof (handle_auth status text js n Hs) as Hh. rewrite <- Ht in Hh.
    destruct (with_error_field ("Authentication failed: " +:+ pretty status)
                js) as [m|e] eqn:Hw.
    all: destruct (flush_throws t c n _ Hne Hn Hh) as (Hret & Ha & Hp & _).
    all: rewrite Hp, length_replicate, Hret.
    + split; [done|]. split; [discriminate|]. eauto.
    + apply with_error_field_raises in Hw as [[m ->] Hno].
      split; [done|]. split; [discriminate|]. done.
Qed.

(** C7, amended.  On a non-empty buffer, a [SurfaIngestError] raised by
    [flush] carries as [response_text] the first 500 characters of the text
    of the last response, so at most 500 characters.  Its message is not
    cut: for a client error it is the client-error text followed by the
    [error] field of the JSON body in full, when the body is an object that
    has one, and for every other status it is the server-error text.  A
    [SurfaAuthError] carries no response text; its message is the
    authentication text followed by the [error] field in full.  And a
    client error, a 401 and a 403 whose body is an object with an [error]
    field do raise the error with that message. *)
Theorem C7_error_body_truncation (t : transport) (c : SurfaClient) :
  _buffer c ≠ [] →
  (∀ m status body,
     returned (flush t c) = Raise (SurfaIngestError m status body) →
     (String.length body ≤ 500)%nat ∧
     ∃ text js,
       t (length (posts (flush t c)) - 1)%nat = Response status text js ∧
       body = slice_to 500 text ∧
       m = if client_error status
           then message_with_field ("Client error: " +:+ pretty status) js
           else "Server error: " +:+ pretty status) ∧
  (∀ m,
     returned (flush t c) = Raise (SurfaAuthError m) →
     ∃ status text js,
       t (length (posts (flush t c)) - 1)%nat = Response status text js ∧
       (status = 401 ∨ status = 403) ∧
       m = message_with_field ("Authentication failed: " +:+ pretty status)
                              js) ∧
  (∀ n status text (error_data : dict) v,
     attempted t n → t n = Response status text (Some (PDict error_data)) →
     error_data !! "error" = Some v →
     (client_error status = true →
      returned (flush t c)
      = Raise (SurfaIngestError
                 (("Client error: " +:+ pretty status) +:+ " - " +:+ py_str v)
                 status (slice_to 500 text))) ∧
     (status = 401 ∨ status = 403 →
      returned (flush t c)
      = Raise (SurfaAuthError
                 (("Authentication failed: " +:+ pretty status) +:+ " - "
                    +:+ py_str v)))) ∧
  (∀ error_msg (error_data : dict) v,
     error_data !! "error" = Some v →
     message_with_field error_msg (Some (PDict error_data))
     = error_msg +:+ " - " +:+ py_str v) ∧
  (∀ error_msg js,
     error_field js = None → message_with_field error_msg js = error_msg) ∧
  (∀ s, py_str (PStr s) = s).
Proof.
  intros Hne. split; [|split; [|split; [|split; [|split]]]].
  - intros m status body Hret.
    destruct (flush_shape t c Hne)
      as (n & _ & Hp & _ & [(d & c' & _ & _ & Hd & _) | (e & Hh & He & _)]).
    { rewrite Hret in Hd. discriminate. }
    rewrite Hret in He. inversion He; subst e.
    destruct Hh as [Hh | (d & _ & Hc)];
      [|apply flush_commit_raises in Hc as [[? ?] _]; discriminate].
    apply handle_ingest_error in Hh
      as (text & js & Ho & -> & _ & _ & _ & _ & Hm).
    split; [apply slice_to_length|].
    rewrite Hp, length_replicate. replace (S n - 1)%nat with n by lia.
    by exists text, js.
  - intros m Hret.
    destruct (flush_shape t c Hne)
      as (n & _ & Hp & _ & [(d & c' & _ & _ & Hd & _) | (e & Hh & He & _)]).
    { rewrite Hret in Hd. discriminate. }
    rewrite Hret in He. inversion He; subst e.
    destruct Hh as [Hh | (d & _ & Hc)];
      [|apply flush_commit_raises in Hc as [[? ?] _]; discriminate].
    apply handle_auth_error in Hh as (status & text & js & Ho & Hs & Hm).
    rewrite Hp, length_replicate. replace (S n - 1)%nat with n by lia.
    by exists status, text, js.
  - intros n status text error_data v Hn Ht Hv.
    assert (Hw : ∀ error_msg,
              with_error_field error_msg (Some (PDict error_data))
              = Ok (error_msg +:+ " - " +:+ py_str v)).
    { intros error_msg. rewrite with_error_field_object by done.
      unfold message_with_field, error_field. by rewrite Hv. }
    split.
    + intros Hc.
      assert (Hh : handle (t n) n
                   = Throw (SurfaIngestError
                              (("Client error: " +:+ pretty status) +:+ " - "
                                 +:+ py_str v) status (slice_to 500 text))).
      { rewrite Ht, handle_client_error by done. by rewrite Hw. }
      by destruct (flush_throws t c n _ Hne Hn Hh) as [-> _].
    + intros Hs.
      assert (Hh : handle (t n) n
                   = Throw (SurfaAuthError
                              (("Authentication failed: " +:+ pretty status)
                                 +:+ " - " +:+ py_str v))).
      { rewrite Ht, handle_auth by done. by rewrite Hw. }
      by destruct (flush_throws t c n _ Hne Hn Hh) as [-> _].
  - intros error_msg error_data v Hv.
    unfold message_with_field, error_field. by rewrite Hv.
  - intros error_msg js Hv. unfold message_with_field. by rewrite Hv.
  - done.
Qed.

End error_properties.

(** C5 at the sample client: a 404 that follows a 503 is raised at the
    second post. *)
Lemma C5_ingest_error_classification_witness :
  _buffer samples.one_buffered ≠ [] ∧
  length (posts (flush (H := samples.repr_unread)
                   (script [Response 503 "busy" None;
                            Response 404 "Not Found" None])
                   samples.one_buffered)) = 2%nat.
Proof.
  split; [discriminate|].
  refine (proj1
    (proj1 (proj2 (C5_ingest_error_classification (H := samples.repr_unread)
       (script [Response 503 "busy" None; Response 404 "Not Found" None])
       samples.one_buffered _))
       1%nat 404 "Not Found" None _ eq_refl _ _ _ eq_refl));
    [discriminate | | lia | lia | lia].
  split; [unfold max_retries; lia|].
  intros i Hi. assert (i = 0%nat) as -> by lia. reflexivity.
Defined.

(** C5 as stated fails at status 501, a 5xx status: [flush] raises
    [SurfaIngestError] after the first post, with no sleep and no retry,
    where the claim has every 5xx retried until the three attempts are
    used up. *)
Lemma C5_counterexample :
  let r := flush (H := samples.repr_unread)
             (script [Response 501 "Not Implemented" None])
             samples.one_buffered in
  500 ≤ 501 < 600 ∧
  returned r
  = Raise (SurfaIngestError "Server error: 501" 501 "Not Implemented") ∧
  length (posts r) = 1%nat ∧ sleeps r = [] ∧
  (length (posts r) < max_retries)%nat.
Proof. vm_compute. repeat split; try discriminate; lia. Qed.

(** C7 at the sample client: the response text of a 400 is cut to 500
    characters. *)
Lemma C7_error_body_truncation_witness :
  _buffer samples.one_buffered ≠ [] ∧
  ∀ m status body,
    returned (flush (H := samples.repr_unread)
                (script [Response 400 samples.long_error_body
                           (Some samples.long_error_json)])
                samples.one_buffered)
    = Raise (SurfaIngestError m status body) →
    (String.length body ≤ 500)%nat.
Proof.
  split; [discriminate|].
  intros m status body Hret.
  refine (proj1 (proj1
    (C7_error_body_truncation (H := samples.repr_unread)
       (script [Response 400 samples.long_error_body
                  (Some samples.long_error_json)])
       samples.one_buffered _) m status body Hret)).
  discriminate.
Defined.

(** C7 as stated fails when the JSON body of a 400 or of a 401 has an
    [error] field of 600 characters: the message of the raised error holds
    all of them, 620 and 629 characters in all, where the claim has the
    error text cut to 500. *)
Lemma C7_counterexample :
  let r400 := flush (H := samples.repr_unread)
                (script [Response 400 samples.long_error_body
                           (Some samples.long_error_json)])
                samples.one_buffered in
  let r401 := flush (H := samples.repr_unread)
                (script [Response 401 samples.long_error_body
                           (Some samples.long_error_json)])
                samples.one_buffered in
  String.length samples.long_error = 600%nat ∧
  returned r400
  = Raise (SurfaIngestError ("Client error: 400 - " +:+ samples.long_error)
             400 (slice_to 500 samples.long_error_body)) ∧
  String.length ("Client error: 400 - " +:+ samples.long_error) = 620%nat ∧
  returned r401
  = Raise (SurfaAuthError
             ("Authentication failed: 401 - " +:+ samples.long_error)) ∧
  String.length ("Authentication failed: 401 - " +:+ samples.long_error)
  = 629%nat.
Proof. vm_compute. repeat split. Qed.

Section tracking_properties.
Context `{Repr}.

(** [validate_event] returns [True] or raises [ValueError]. *)
Lemma validate_event_cases event :
  validate_event event = Ok true ∨
  ∃ m, validate_event event = Raise (ValueError m).
Proof.
  unfold validate_event.
  destruct (event !! "kind") as [kind|]; [|eauto].
  destruct (negb (is_str kind)); [eauto|].
  destruct (negb (truthy kind)); [eauto|].
  destruct (event !! "ts") as [ts|]; [|eauto].
  destruct (negb (is_str ts)); eauto.
Qed.

(** A valid event below the threshold is appended, and that is all. *)
Lemma track_raw_below t event c :
  validate_event event = Ok true →
  Z.of_nat (length (_buffer c ++ [event])) < flush_at c →
  track_raw t event c
  = {| t_returned := Ok tt; t_after := set_buffer (_buffer c ++ [event]) c;
       flushed := None |}.
Proof.
  intros Hv Hlt. unfold track_raw. rewrite Hv.
  cbn [_buffer set_buffer flush_at].
  destruct (Z.geb_spec (Z.of_nat (length (_buffer c ++ [event])))
              (flush_at c)); [lia | done].
Qed.

(** A valid event at or over the threshold: the buffer with it is
    flushed, and the call ends as the flush does. *)
Lemma track_raw_over t event c :
  validate_event event = Ok true →
  flush_at c ≤ Z.of_nat (length (_buffer c ++ [event])) →
  track_raw t event c
  = {| t_returned :=
         bind (returned (flush t (set_buffer (_buffer c ++ [event]) c)))
              (λ _, Ok tt);
       t_after := after (flush t (set_buffer (_buffer c ++ [event]) c));
       flushed := Some (flush t (set_buffer (_buffer c ++ [event]) c)) |}.
Proof.
  intros Hv Hge. unfold track_raw. rewrite Hv.
  cbn [_buffer set_buffer flush_at].
  destruct (Z.geb_spec (Z.of_nat (length (_buffer c ++ [event])))
              (flush_at c)); [done | lia].
Qed.

(** A flush on a non-empty buffer calls the transport. *)
Lemma flush_posts t c : _buffer c ≠ [] → posts (flush t c) ≠ [].
Proof.
  intros Hne. destruct (flush_shape t c Hne) as (n & _ & Hp & _).
  rewrite Hp. discriminate.
Qed.

(** C6.  A tracking call invokes [flush] exactly when its event is valid and
    the buffer, with the event appended, has reached [flush_at].  The flush
    is then run on the client with the event appended, inside the call, and
    it posts to the transport; what the call returns or raises and the
    client it leaves are those of the flush.  A valid event that leaves the
    buffer below [flush_at] is appended, the call returns, and nothing is
    posted.  An invalid event is neither appended nor flushed. *)
Theorem C6_auto_flush_threshold (t : transport) (event : dict)
    (c : SurfaClient) :
  let appended := set_buffer (_buffer c ++ [event]) c in
  let r := track_raw t event c in
  (is_Some (flushed r) ↔
   validate_event event = Ok true ∧
   flush_at c ≤ Z.of_nat (length (_buffer c ++ [event]))) ∧
  (validate_event event = Ok true →
   flush_at c ≤ Z.of_nat (length (_buffer c ++ [event])) →
   flushed r = Some (flush t appended) ∧
   posts (flush t appended) ≠ [] ∧
   t_after r = after (flush t appended) ∧
   t_returned r = bind (returned (flush t appended)) (λ _, Ok tt)) ∧
  (validate_event event = Ok true →
   Z.of_nat (length (_buffer c ++ [event])) < flush_at c →
   flushed r = None ∧ t_after r = appended ∧ t_returned r = Ok tt) ∧
  (validate_event event ≠ Ok true →
   flushed r = None ∧ t_after r = c ∧
   ∃ m, t_returned r = Raise (SurfaValidationError m)) ∧
  track t event c = r.
Proof.
  cbn zeta. unfold track, track_raw.
  destruct (validate_event_cases event) as [Hv | (m & Hv)]; rewrite Hv.
  - cbn [_buffer set_buffer flush_at].
    destruct (Z.geb_spec (Z.of_nat (length (_buffer c ++ [event])))
                         (flush_at c)) as [Hge | Hlt]; cbn.
    + split; [split; [intros _; split; [done|lia] | eauto]|].
      split; [|split; [intros _ Hc; lia|split; [done|done]]].
      intros _ _. split; [done|]. split; [|done].
      apply flush_posts. cbn. by destruct (_buffer c).
    + split; [split; [intros [? ?]; done | intros [_ Hc]; lia]|].
      split; [intros _ Hc; lia|]. split; [done|]. split; [done|done].
  - cbn. split; [split; [intros [? ?]; done | intros [? _]; done]|].
    split; [done|]. split; [done|]. split; [|done].
    intros _. eauto.
Qed.

(** C9.  For a non-empty [kind], the event the factory builds from [kind]
    alone has the two fields [kind] and [ts], the latter the current time;
    [validate_event] accepts it; and [validate_event] hands nothing back but
    [True], so what [track_raw] appends after validating is the event
    itself: it is the last element of the buffer, or of the buffer that is
    flushed. *)
Theorem C9_factory_round_trip (now kind : string) :
  kind ≠ "" →
  let event :=
    create_event now (PStr kind) PNone PNone PNone PNone PNone PNone PNone
                 PNone PNone None ∅ in
  event = <["kind" := PStr kind]> {["ts" := PStr now]} ∧
  dom event = {["kind"; "ts"]} ∧
  event !! "kind" = Some (PStr kind) ∧ event !! "ts" = Some (PStr now) ∧
  validate_event event = Ok true ∧
  ∀ (t : transport) (c : SurfaClient),
    let appended := set_buffer (_buffer c ++ [event]) c in
    _buffer appended = _buffer c ++ [event] ∧
    (flushed (track_raw t event c) = None ∧
     t_after (track_raw t event c) = appended ∨
     flushed (track_raw t event c) = Some (flush t appended) ∧
     t_after (track_raw t event c) = after (flush t appended)).
Proof.
  intros Hk. cbn zeta.
  assert (He : create_event now (PStr kind) PNone PNone PNone PNone PNone
                 PNone PNone PNone PNone None ∅
               = <["kind" := PStr kind]> {["ts" := PStr now]}) by reflexivity.
  rewrite He.
  assert (Hv : validate_event (<["kind" := PStr kind]> {["ts" := PStr now]})
               = Ok true).
  { unfold validate_event. rewrite lookup_insert_eq.
    rewrite lookup_insert_ne by done. rewrite lookup_singleton_eq. cbn.
    destruct (String.eqb_spec kind ""); [done|]. done. }
  split; [done|]. split.
  { rewrite dom_insert_L, dom_singleton_L. set_solver. }
  split; [apply lookup_insert_eq|]. split.
  { rewrite lookup_insert_ne by done. apply lookup_singleton_eq. }
  split; [exact Hv|].
  intros t c. split; [done|].
  unfold track_raw. rewrite Hv.
  cbn [_buffer set_buffer flush_at].
  destruct (Z.of_nat (length (_buffer c ++ _)) >=? flush_at c); cbn; auto.
Qed.

End tracking_properties.

(** C6 on a client with threshold 2: the first event is buffered without a
    flush, the second one is flushed with it, and the buffer is empty after
    the 200. *)
Lemma C6_auto_flush_threshold_witness :
  let first := track_raw (H := samples.repr_unread)
                 (script [samples.ok_response]) samples.tool_event
                 samples.threshold_two in
  let second := track_raw (H := samples.repr_unread)
                  (script [samples.ok_response]) samples.other_event
                  (t_after first) in
  (flushed first = None ∧ length (_buffer (t_after first)) = 1%nat) ∧
  is_Some (flushed second) ∧ _buffer (t_after second) = [].
Proof.
  cbn zeta. split; [|split].
  - destruct (C6_auto_flush_threshold (H := samples.repr_unread)
                (script [samples.ok_response]) samples.tool_event
                samples.threshold_two) as (_ & _ & Hbelow & _).
    destruct Hbelow as (Hf & Ha & _); [reflexivity | reflexivity |].
    split; [exact Hf|]. rewrite Ha. reflexivity.
  - apply (C6_auto_flush_threshold (H := samples.repr_unread)).
    split; [reflexivity | vm_compute; discriminate].
  - vm_compute. reflexivity.
Defined.

(** C9 at the kind ["tool"]. *)
Lemma C9_factory_round_trip_witness :
  "tool" ≠ "" ∧
  validate_event
    (create_event "2026-01-29T20:00:00Z" (PStr "tool") PNone PNone PNone
       PNone PNone PNone PNone PNone PNone None ∅) = Ok true.
Proof.
  split; [discriminate|].
  refine (proj1 (proj2 (proj2 (proj2 (proj2
    (C9_factory_round_trip (H := samples.repr_unread)
       "2026-01-29T20:00:00Z" "tool" _)))))).
  discriminate.
Defined.

Section factory_properties.

(** A falsy dictionary is the empty one. *)
Lemma dict_truthy_false (d : dict) : dict_truthy d = false → d = ∅.
Proof.
  unfold dict_truthy. intros Hd. apply negb_false_iff, Nat.eqb_eq in Hd.
  by apply map_size_empty_inv.
Qed.

(** What [create_event] merges last: the payload, then the keywords over
    it. *)
Lemma merged_payload_eq (payload : option dict) (kwargs : dict) :
  (let merged_payload : dict := ∅ in
   let merged_payload :=
     if from_option dict_truthy false payload
     then update merged_payload (default ∅ payload) else merged_payload in
   if dict_truthy kwargs then update merged_payload kwargs
   else merged_payload)
  = kwargs ∪ default ∅ payload.
Proof.
  cbn zeta. unfold update.
  assert (Hp : (if from_option dict_truthy false payload
                then default ∅ payload ∪ ∅ else ∅) = default ∅ payload).
  { destruct payload as [p|]; cbn; [|done].
    destruct (dict_truthy p) eqn:Hd; [by rewrite (right_id_L ∅ (∪))|].
    by rewrite (dict_truthy_false p Hd). }
  rewrite Hp.
  destruct (dict_truthy kwargs) eqn:Hk; [done|].
  rewrite (dict_truthy_false kwargs Hk). by rewrite (left_id_L ∅ (∪)).
Qed.

(** A field of the payload or of the keywords is the field of the event. *)
Lemma create_event_extension now kind subtype tool_name status direction
    method correlation_id span_parent_id latency_ms ts payload kwargs k v :
  (kwargs ∪ default ∅ payload) !! k = Some v →
  create_event now kind subtype tool_name status direction method
    correlation_id span_parent_id latency_ms ts payload kwargs !! k = Some v.
Proof.
  intros Hk. unfold create_event. cbn zeta.
  rewrite merged_payload_eq.
  destruct (from_option dict_truthy false payload || dict_truthy kwargs)
    eqn:Hc.
  - unfold update at 1. by apply lookup_union_Some_l.
  - apply orb_false_iff in Hc as [Hp Hkw].
    rewrite (dict_truthy_false kwargs Hkw) in Hk.
    rewrite (left_id_L ∅ (∪)) in Hk.
    destruct payload as [p|]; cbn in Hp, Hk.
    + rewrite (dict_truthy_false p Hp) in Hk. by rewrite lookup_empty in Hk.
    + by rewrite lookup_empty in Hk.
Qed.

(** [validate_event] rejects a [kind] that is not a string or is empty. *)
Lemma validate_event_bad_kind (event : dict) v :
  event !! "kind" = Some v →
  is_str v = false ∨ v = PStr "" →
  ∃ m, validate_event event = Raise (ValueError m).
Proof.
  intros Hk Hv. unfold validate_event. rewrite Hk.
  destruct Hv as [Hv | ->]; [rewrite Hv|]; cbn; eauto.
Qed.

(** The helpers, called with a payload and nothing else that is optional,
    pass it to [create_event] with their fixed fields. *)
Lemma session_started_payload now (p : dict) :
  session_started now (PDict p) ∅
  = Ok (create_event now (PStr "session") (PStr "session_started") PNone
          PNone PNone PNone PNone PNone PNone PNone (Some p) ∅).
Proof. reflexivity. Qed.

Lemma session_ended_payload now (p : dict) :
  session_ended now (PDict p) ∅
  = Ok (create_event now (PStr "session") (PStr "session_ended") PNone
          PNone PNone PNone PNone PNone PNone PNone (Some p) ∅).
Proof. reflexivity. Qed.

Lemma custom_payload now kind (p : dict) :
  custom now kind None (PDict p) ∅
  = Ok (create_event now (PStr kind) PNone PNone PNone PNone PNone PNone
          PNone PNone PNone (Some p) ∅).
Proof. reflexivity. Qed.

Lemma tool_call_started_payload now tool_name (p : dict) :
  tool_call_started now tool_name None None {["payload" := PDict p]}
  = Ok (create_event now (PStr "tool") (PStr "tool_call_started")
          (PStr tool_name) PNone (PStr "request") PNone PNone PNone PNone
          PNone (Some p) ∅).
Proof. reflexivity. Qed.

Lemma tool_call_completed_payload now tool_name (p : dict) :
  tool_call_completed now tool_name PNone None None
    {["payload" := PDict p]}
  = Ok (create_event now (PStr "tool") (PStr "tool_call_completed")
          (PStr tool_name) (PStr "success") (PStr "response") PNone PNone
          PNone PNone PNone (Some p) ∅).
Proof. reflexivity. Qed.

Lemma tool_call_failed_payload now tool_name (p : dict) :
  tool_call_failed now tool_name None None None {["payload" := PDict p]}
  = Ok (create_event now (PStr "tool") (PStr "tool_call_failed")
          (PStr tool_name) (PStr "error") (PStr "response") PNone PNone
          PNone PNone PNone (Some p) ∅).
Proof. reflexivity. Qed.

(** A keyword [kind] given to [tool_call_started] is the [kind] that
    [create_event] receives. *)
Lemma tool_call_started_kind now tool_name v :
  tool_call_started now tool_name None None {["kind" := v]}
  = Ok (create_event now v (PStr "tool_call_started") (PStr tool_name) PNone
          (PStr "request") PNone PNone PNone PNone PNone None ∅).
Proof. reflexivity. Qed.

Lemma helper_results_created now tool_name kind p r :
  r ∈ helper_results now tool_name kind p →
  ∃ kind' subtype tool status direction,
    r = Ok (create_event now kind' subtype tool status direction PNone PNone
              PNone PNone PNone (Some p) ∅).
Proof.
  unfold helper_results. rewrite !elem_of_cons, elem_of_nil.
  intros [-> | [-> | [-> | [-> | [-> | [-> | []]]]]]].
  - rewrite session_started_payload. by repeat eexists.
  - rewrite session_ended_payload. by repeat eexists.
  - rewrite tool_call_started_payload. by repeat eexists.
  - rewrite tool_call_completed_payload. by repeat eexists.
  - rewrite tool_call_failed_payload. by repeat eexists.
  - rewrite custom_payload. by repeat eexists.
Qed.

(** A call that evaluates to a value with a property returns such a
    value. *)
Lemma ok_exists {A} (r : result A) (P : A → Prop) :
  match r with Ok a => P a | Raise _ => False end →
  ∃ a, r = Ok a ∧ P a.
Proof. destruct r as [a | e]; [eauto | done]. Qed.

(** The keywords [kind] and [subtype] collide with the ones the session
    helpers pass themselves. *)
Lemma keywords_collision explicit (kwargs : dict) k v :
  (k, v) ∈ explicit → is_Some (kwargs !! k) →
  ∃ m, keywords explicit kwargs = Raise (TypeError m).
Proof.
  intros Hin Hk. unfold keywords.
  assert (existsb (λ kv, bool_decide (is_Some (kwargs !! kv.1))) explicit
          = true) as ->; [|eauto].
  apply existsb_exists. exists (k, v). split; [by apply list_elem_of_In|].
  by apply bool_decide_eq_true.
Qed.

(** What [create_event] receives in [**kwargs] from a call with the
    keywords [args]: those that are not names of its parameters. *)
Lemma lookup_extra_keywords (args : dict) (names : list string) k :
  foldr delete args names !! k
  = if decide (k ∈ names) then None else args !! k.
Proof.
  induction names as [|name names IH]; cbn [foldr].
  - case_decide as Hk; [by apply elem_of_nil in Hk | done].
  - destruct (decide (name = k)) as [-> | Hne].
    + rewrite lookup_delete_eq. rewrite decide_True; [done|].
      apply elem_of_cons. by left.
    + rewrite lookup_delete_ne by done. rewrite IH.
      case_decide as Hk; case_decide as Hk'; try done.
      * destruct Hk'. apply elem_of_cons. by right.
      * apply elem_of_cons in Hk' as [-> | Hk']; done.
Qed.

End factory_properties.

Section factory_claims.

(** C10, amended.  In a call of [create_event] with keywords, the keywords
    that are names of its parameters are its named arguments, and the
    others are the extension fields.  The payload is merged into the event
    after every named field is set, and the extension keywords after the
    payload: an extension keyword is the field of the event, and so is a
    field of the payload, unless an extension keyword has its name,
    whatever the named arguments were: [kind], [ts], [subtype] and [status]
    included, which are names of parameters.  The same holds for a payload
    given to each of the six helpers.  A keyword [kind], [subtype],
    [status] or [direction] given to a tool helper replaces the fixed value
    before the event is built; given to [session_started] or
    [session_ended], a keyword [kind] or [subtype] raises [TypeError] and
    no event is returned.  So a payload that binds [kind] to a value that
    is not a string, or to the empty string, makes [create_event] and each
    helper return an event that [validate_event] rejects. *)
Theorem C10_extension_fields_override (now : string) :
  (∀ (args : dict) kind,
     args !! "kind" = Some kind →
     args !! "payload" = None ∨ (∃ p, args !! "payload" = Some (PDict p)) →
     ∃ event,
       create_event_kw now args = Ok event ∧
       (∀ k v, k ∉ named_params → args !! k = Some v →
               event !! k = Some v) ∧
       (∀ (p : dict) k v,
          args !! "payload" = Some (PDict p) → p !! k = Some v →
          k ∈ named_params ∨ args !! k = None →
          event !! k = Some v)) ∧
  (∀ k, k ∈ ["kind"; "ts"; "subtype"; "status"] → k ∈ named_params) ∧
  (∀ kind subtype status ts (p : dict) k v,
     k ∈ ["kind"; "ts"; "subtype"; "status"] → p !! k = Some v →
     create_event now kind subtype PNone status PNone PNone PNone PNone
       PNone ts (Some p) ∅ !! k = Some v) ∧
  (∀ tool_name kind (p : dict) r,
     r ∈ helper_results now tool_name kind p →
     ∃ event, r = Ok event ∧ ∀ k v, p !! k = Some v → event !! k = Some v) ∧
  (∀ tool_name k v,
     k ∈ ["kind"; "subtype"; "status"; "direction"] → is_none v = false →
     (∃ event,
        tool_call_started now tool_name None None {[k := v]} = Ok event ∧
        event !! k = Some v) ∧
     (∃ event,
        tool_call_completed now tool_name PNone None None {[k := v]}
        = Ok event ∧
        event !! k = Some v) ∧
     (∃ event,
        tool_call_failed now tool_name None None None {[k := v]} = Ok event ∧
        event !! k = Some v)) ∧
  (∀ payload (kwargs : dict),
     is_Some (kwargs !! "kind") ∨ is_Some (kwargs !! "subtype") →
     (∃ m, session_started now payload kwargs = Raise (TypeError m)) ∧
     (∃ m, session_ended now payload kwargs = Raise (TypeError m))) ∧
  (∀ kind subtype tool_name status direction method correlation_id
     span_parent_id latency_ms ts (p : dict) v,
     p !! "kind" = Some v → is_str v = false ∨ v = PStr "" →
     ∃ m, validate_event
            (create_event now kind subtype tool_name status direction method
               correlation_id span_parent_id latency_ms ts (Some p) ∅)
          = Raise (ValueError m)) ∧
  (∀ tool_name kind (p : dict) v r,
     p !! "kind" = Some v → is_str v = false ∨ v = PStr "" →
     r ∈ helper_results now tool_name kind p →
     ∃ event m, r = Ok event ∧ validate_event event = Raise (ValueError m)) ∧
  validate_event
    (create_event now (PStr "tool") PNone PNone PNone PNone PNone PNone
       PNone PNone PNone (Some {["kind" := PInt 5]}) ∅)
  = Raise (ValueError "Event 'kind' must be a string") ∧
  validate_event
    (create_event now (PStr "tool") PNone PNone PNone PNone PNone PNone
       PNone PNone PNone (Some {["kind" := PStr ""]}) ∅)
  = Raise (ValueError "Event 'kind' cannot be empty").
Proof.
  assert (Hpay : ∀ (p : dict) k v,
            p !! k = Some v → ((∅ : dict) ∪ default ∅ (Some p)) !! k = Some v).
  { intros p k v Hk. cbn. by rewrite (left_id_L ∅ (∪)). }
  split.
  { intros args kind Hkind Hp. unfold create_event_kw. rewrite Hkind.
    assert (Hpa : ∃ payload : option dict,
              payload_arg (args !! "payload") = Ok payload ∧
              ∀ p, args !! "payload" = Some (PDict p) → payload = Some p).
    { destruct Hp as [-> | [p ->]].
      - exists None. split; [done|]. discriminate.
      - exists (Some p). split; [done|]. by intros ? [= ->]. }
    destruct Hpa as (payload & -> & Hpl). cbn [bind].
    eexists. split; [reflexivity|]. split.
    - intros k v Hk Hv. apply create_event_extension.
      apply lookup_union_Some_l. rewrite lookup_extra_keywords.
      by rewrite decide_False.
    - intros p k v Hpay' Hv Hk. apply create_event_extension.
      rewrite (Hpl p Hpay'). cbn [default].
      rewrite lookup_union_r; [done|]. rewrite lookup_extra_keywords.
      case_decide; [done|]. by destruct Hk. }
  split.
  { intros k Hk. unfold named_params.
    rewrite !elem_of_cons, elem_of_nil in Hk. rewrite !elem_of_cons.
    tauto. }
  split; [intros; apply create_event_extension; by apply Hpay|].
  split.
  { intros tool_name kind p r Hr.
    apply helper_results_created in Hr
      as (kind' & subtype & tool & status & direction & ->).
    eexists. split; [reflexivity|].
    intros k v Hk. apply create_event_extension. by apply Hpay. }
  split.
  { intros tool_name k v Hk Hv. rewrite !elem_of_cons, elem_of_nil in Hk.
    destruct Hk as [-> | [-> | [-> | [-> | []]]]];
      destruct v; try discriminate;
      (repeat split; apply ok_exists; vm_compute; reflexivity). }
  split.
  { intros payload kwargs Hk. unfold session_started, session_ended.
    assert (Hc : ∀ subtype,
              ∃ m, keywords [("kind", PStr "session"); ("subtype", subtype);
                             ("payload", payload)] kwargs
                   = Raise (TypeError m)).
    { intros subtype. destruct Hk as [Hk | Hk].
      - apply (keywords_collision _ _ "kind" (PStr "session"));
          [rewrite !elem_of_cons; auto | exact Hk].
      - apply (keywords_collision _ _ "subtype" subtype);
          [rewrite !elem_of_cons; auto | exact Hk]. }
    split.
    - destruct (Hc (PStr "session_started")) as [m ->]. by exists m.
    - destruct (Hc (PStr "session_ended")) as [m ->]. by exists m. }
  split.
  { intros kind subtype tool_name status direction method correlation_id
      span_parent_id latency_ms ts p v Hk Hv.
    eapply validate_event_bad_kind; [|exact Hv].
    apply create_event_extension. by apply Hpay. }
  split.
  { intros tool_name kind p v r Hk Hv Hr.
    apply helper_results_created in Hr
      as (kind' & subtype & tool & status & direction & ->).
    destruct (validate_event_bad_kind
                (create_event now kind' subtype tool status direction PNone
                   PNone PNone PNone PNone (Some p) ∅) v) as [m Hm];
      [apply create_event_extension; by apply Hpay | exact Hv |].
    eexists _, m. split; [reflexivity | exact Hm]. }
  split; reflexivity.
Qed.

End factory_claims.

(** C10 as stated fails for a keyword of [session_started] or
    [session_ended]: given [kind] or [subtype] as a keyword, the helper
    returns no event at all, so the keyword overrides nothing; the call
    raises [TypeError], because the helper passes that keyword to
    [create_event] itself.  The same value in the payload does override
    the fixed field. *)
Lemma C10_counterexample :
  session_started "2026-01-29T20:00:00Z" PNone {["kind" := PStr "custom"]}
  = Raise (TypeError
             "create_event() got multiple values for keyword argument") ∧
  session_ended "2026-01-29T20:00:00Z" PNone {["subtype" := PStr "custom"]}
  = Raise (TypeError
             "create_event() got multiple values for keyword argument") ∧
  match session_started "2026-01-29T20:00:00Z"
          (PDict {["kind" := PStr "custom"]}) ∅ with
  | Ok event => event !! "kind"
  | Raise _ => None
  end = Some (PStr "custom").
Proof. split; [|split]; vm_compute; reflexivity. Qed.

Section session_properties.
Context `{Repr}.

(** Every request of a flush is the one built on entry; the flush either
    returns a response body, having posted, and leaves the committed client,
    or returns no body and leaves the client as it was. *)
Lemma flush_cases t c :
  Forall (λ req, req = build_request c) (posts (flush t c)) ∧
  ((∃ data, returned (flush t c) = Ok (Some data) ∧
            flush_commit c data = Ok (after (flush t c)) ∧
            posts (flush t c) ≠ []) ∨
   ((∀ data, returned (flush t c) ≠ Ok (Some data)) ∧
    after (flush t c) = c)).
Proof.
  destruct (_buffer c) as [|e0 b] eqn:Hb.
  - unfold flush, flush_shared. rewrite Hb. cbn.
    split; [constructor|]. right. done.
  - assert (Hne : _buffer c ≠ []) by (rewrite Hb; discriminate).
    destruct (flush_shape t c Hne)
      as (n & _ & Hp & _ & [(data & c' & _ & Hc & Hr & Ha)
                           | (e & _ & Hr & Ha)]).
    + split; [rewrite Hp; by apply Forall_replicate|].
      left. exists data. rewrite Hp, Ha. done.
    + split; [rewrite Hp; by apply Forall_replicate|].
      right. split; [|done]. intros data. rewrite Hr. discriminate.
Qed.

(** What a tracking call leaves, by whether it flushed. *)
Lemma track_raw_cases t event c :
  let appended := set_buffer (_buffer c ++ [event]) c in
  let r := track_raw t event c in
  (flushed r = None ∧ (t_after r = c ∨ t_after r = appended)) ∨
  (flushed r = Some (flush t appended) ∧ t_after r = after (flush t appended)).
Proof.
  cbn zeta. unfold track_raw.
  destruct (validate_event event) as [b | e]; [|destruct e; cbn; auto].
  cbn [_buffer set_buffer flush_at].
  destruct (Z.of_nat (length (_buffer c ++ [event])) >=? flush_at c);
    cbn; auto.
Qed.

(** One call other than [set_runtime]: a flush it invoked ran on a client
    with the runtime state of the caller's, and the call leaves what that
    flush left; without a flush the runtime state and the execution id are
    untouched. *)
Lemma do_call_cases c k :
  is_set_runtime k = false →
  ((do_call c k).2 = [] ∧
   runtime_state (do_call c k).1 = runtime_state c ∧
   execution_id (do_call c k).1 = execution_id c) ∨
  (∃ t c',
     (do_call c k).2 = [{| before := c'; run := flush t c' |}] ∧
     (do_call c k).1 = after (flush t c') ∧
     runtime_state c' = runtime_state c ∧
     execution_id c' = execution_id c).
Proof.
  destruct k as [t event | t | provider model mode extra kwargs];
    [| |discriminate]; intros _; cbn [do_call].
  - destruct (track_raw_cases t event c) as [[Hf Ha] | [Hf Ha]];
      rewrite Hf; cbn [fst snd].
    + left. split; [done|]. by destruct Ha as [-> | ->].
    + right. exists t, (set_buffer (_buffer c ++ [event]) c). done.
  - right. exists t, c. done.
Qed.

(** The batch of a flush is the buffer on entry, behind the runtime-info
    event when that is due. *)
Lemma flush_batch t c :
  posts (flush t c) ≠ [] →
  batch_is (events_to_send c) {| before := c; run := flush t c |}.
Proof.
  intros Hp. split; [exact Hp|]. cbn [run].
  destruct (flush_cases t c) as [Hall _].
  eapply Forall_impl; [exact Hall|]. by intros req ->.
Qed.

(** Once the runtime-info event went out, no call other than [set_runtime]
    brings it back: every later flush that succeeds sent the buffer as it
    was. *)
Lemma emitted_stays ks : ∀ c,
  forallb (λ k, negb (is_set_runtime k)) ks = true →
  _runtime_info_emitted c = true →
  Forall (λ fc, batch_is (_buffer (before fc)) fc)
         (successes (do_calls c ks).2).
Proof.
  induction ks as [|k ks IH]; intros c Hks Hem; [constructor|].
  cbn in Hks. apply andb_true_iff in Hks as [Hk Hks].
  apply negb_true_iff in Hk.
  cbn [do_calls fst snd]. unfold successes. rewrite filter_app.
  apply Forall_app.
  destruct (do_call_cases c k Hk)
    as [(Hl & Hrs & _) | (t & c' & Hl & Hc & Hrs & _)].
  - rewrite Hl. split; [constructor|].
    apply IH; [done|]. injection Hrs as _ ->. done.
  - rewrite Hl, Hc. injection Hrs as Hrt Hem'. rewrite Hem in Hem'.
    destruct (flush_cases t c') as [_ [(data & Hr & Ha & Hp) | [Hr Ha]]].
    + split.
      * rewrite filter_cons_True by (unfold delivered; cbn; rewrite Hr; eauto).
        rewrite filter_nil. constructor; [|constructor].
        pose proof (flush_batch t c' Hp) as Hb.
        unfold events_to_send, runtime_info_due in Hb.
        rewrite Hem', andb_false_r in Hb. exact Hb.
      * apply IH; [done|]. rewrite (flush_commit_emitted _ _ _ Ha), Hem'.
        done.
    + split.
      * rewrite filter_cons_False; [constructor|].
        unfold delivered; cbn. intros [d Hd].
        destruct (returned (flush t c')) as [[d'|]|] eqn:Hret;
          try discriminate. by eapply Hr.
      * apply IH; [done|]. rewrite Ha. done.
Qed.

(** While the runtime-info event is due, the first flush that succeeds
    carries it in front of the buffer, and the later ones do not. *)
Lemma due_then_once ks : ∀ c runtime,
  forallb (λ k, negb (is_set_runtime k)) ks = true →
  _runtime c = Some runtime → dict_truthy runtime = true →
  _runtime_info_emitted c = false →
  match successes (do_calls c ks).2 with
  | [] => True
  | first :: rest =>
      batch_is (runtime_info_event runtime :: _buffer (before first)) first ∧
      Forall (λ fc, batch_is (_buffer (before fc)) fc) rest
  end.
Proof.
  induction ks as [|k ks IH]; intros c runtime Hks Hrt Htr Hem; [done|].
  cbn in Hks. apply andb_true_iff in Hks as [Hk Hks].
  apply negb_true_iff in Hk.
  cbn [do_calls fst snd]. unfold successes. rewrite filter_app.
  destruct (do_call_cases c k Hk)
    as [(Hl & Hrs & _) | (t & c' & Hl & Hc & Hrs & _)].
  - rewrite Hl, filter_nil. cbn [app]. injection Hrs as Hrt' Hem'.
    apply IH; [done| congruence | done | congruence].
  - rewrite Hl, Hc. injection Hrs as Hrt' Hem'.
    rewrite Hrt in Hrt'. rewrite Hem in Hem'.
    destruct (flush_cases t c') as [_ [(data & Hr & Ha & Hp) | [Hr Ha]]].
    + rewrite filter_cons_True by (unfold delivered; cbn; rewrite Hr; eauto).
      rewrite filter_nil. cbn [app]. split.
      * pose proof (flush_batch t c' Hp) as Hb.
        unfold events_to_send, runtime_info_due in Hb.
        rewrite Hrt', Hem' in Hb. cbn in Hb. rewrite Htr in Hb. exact Hb.
      * apply emitted_stays; [done|].
        rewrite (flush_commit_emitted _ _ _ Ha), Hrt'. cbn. rewrite Htr.
        apply orb_true_r.
    + rewrite filter_cons_False.
      * rewrite filter_nil. cbn [app]. rewrite Ha.
        apply IH; [done | congruence | done | congruence].
      * unfold delivered; cbn. intros [d Hd].
        destruct (returned (flush t c')) as [[d'|]|] eqn:Hret;
          try discriminate. by eapply Hr.
Qed.

End session_properties.

Section runtime_properties.
Context `{Repr}.

(** A dictionary with a key is truthy. *)
Lemma dict_truthy_true (d : dict) k v : d !! k = Some v → dict_truthy d = true.
Proof.
  intros Hk. unfold dict_truthy. apply negb_true_iff, Nat.eqb_neq.
  intros Hs. apply map_size_empty_inv in Hs. subst d.
  by rewrite lookup_empty in Hk.
Qed.

(** [set_runtime] replaces the snapshot by a non-empty one and clears the
    emitted flag. *)
Lemma set_runtime_state provider model mode extra kwargs c :
  ∃ runtime,
    _runtime (set_runtime provider model mode extra kwargs c) = Some runtime ∧
    dict_truthy runtime = true ∧
    _runtime_info_emitted (set_runtime provider model mode extra kwargs c)
    = false.
Proof.
  unfold set_runtime. eexists. split; [reflexivity|]. split; [|reflexivity].
  set (r0 := <["model" := PStr model]> {["provider" := PStr provider]} : dict).
  set (r1 := if truthy (of_opt PStr mode)
             then <["mode" := of_opt PStr mode]> r0 else r0).
  assert (H1 : is_Some (r1 !! "provider")).
  { subst r1 r0. destruct (truthy (of_opt PStr mode));
      rewrite ?lookup_insert_ne by done; rewrite lookup_singleton_eq; eauto. }
  set (r2 := if from_option dict_truthy false extra
             then update r1 (default ∅ extra) else r1).
  assert (H2 : is_Some (r2 !! "provider")).
  { subst r2. destruct (from_option dict_truthy false extra); [|done].
    unfold update. apply lookup_union_is_Some. by right. }
  assert (H3 : is_Some ((if dict_truthy kwargs then update r2 kwargs else r2)
                        !! "provider")).
  { destruct (dict_truthy kwargs); [|done].
    unfold update. apply lookup_union_is_Some. by right. }
  destruct H3 as [v Hv]. by eapply dict_truthy_true.
Qed.

(** The fields of the runtime-info event. *)
Lemma runtime_info_event_lookup (runtime : dict) k :
  runtime_info_event runtime !! k =
    match runtime !! k with
    | Some v => Some v
    | None =>
        (<["subtype" := PStr "runtime_info"]> {["kind" := PStr "runtime"]}
         : dict) !! k
    end.
Proof.
  unfold runtime_info_event, update.
  destruct (runtime !! k) as [v|] eqn:Hk.
  - by apply lookup_union_Some_l.
  - by rewrite lookup_union_r.
Qed.

(** C2, amended.  After [set_runtime], and as long as it is not called
    again, the first flush that posts a batch and succeeds, explicit or
    from a tracking call, sends in every request the runtime-info event
    followed by the buffer as it was on entry, and each later flush that
    succeeds sends the buffer as it was on entry and nothing else.  The
    runtime-info event is the snapshot laid over [kind] = ["runtime"] and
    [subtype] = ["runtime_info"]: it has every field of the snapshot with
    the snapshot's value, and the two fixed values where the snapshot has
    no field of that name. *)
Theorem C2_runtime_info_once provider model mode extra kwargs
    (c0 : SurfaClient) (ks : list call) :
  forallb (λ k, negb (is_set_runtime k)) ks = true →
  let c1 := set_runtime provider model mode extra kwargs c0 in
  ∃ runtime : dict,
    _runtime c1 = Some runtime ∧
    (∀ k v, runtime !! k = Some v →
            runtime_info_event runtime !! k = Some v) ∧
    (runtime !! "kind" = None →
     runtime_info_event runtime !! "kind" = Some (PStr "runtime")) ∧
    (runtime !! "subtype" = None →
     runtime_info_event runtime !! "subtype" = Some (PStr "runtime_info")) ∧
    dom (runtime_info_event runtime) = {["kind"; "subtype"]} ∪ dom runtime ∧
    match successes (do_calls c1 ks).2 with
    | [] => True
    | first :: rest =>
        batch_is (runtime_info_event runtime :: _buffer (before first)) first ∧
        Forall (λ fc, batch_is (_buffer (before fc)) fc) rest
    end.
Proof.
  intros Hks. cbn zeta.
  destruct (set_runtime_state provider model mode extra kwargs c0)
    as (runtime & Hrt & Htr & Hem).
  exists runtime. split; [exact Hrt|].
  split; [intros k v Hk; by rewrite runtime_info_event_lookup, Hk|].
  split; [intros Hk; by rewrite runtime_info_event_lookup, Hk|].
  split; [intros Hk; by rewrite runtime_info_event_lookup, Hk|].
  split.
  { unfold runtime_info_event, update.
    rewrite dom_union_L, dom_insert_L, dom_singleton_L.
    apply set_eq. intros x. rewrite !elem_of_union, !elem_of_singleton.
    tauto. }
  by apply due_then_once.
Qed.

End runtime_properties.

(** C2 on the calls of [samples.two_flushes], after the runtime of the demo
    script. *)
Lemma C2_runtime_info_once_witness :
  forallb (λ k, negb (is_set_runtime k)) samples.two_flushes = true ∧
  ∃ runtime : dict,
    _runtime (set_runtime "anthropic" "claude-sonnet-4-5" (Some "messages")
                None ∅ samples.one_buffered) = Some runtime.
Proof.
  split; [reflexivity|].
  destruct (C2_runtime_info_once (H := samples.repr_unread)
              "anthropic" "claude-sonnet-4-5" (Some "messages") None ∅
              samples.one_buffered samples.two_flushes eq_refl)
    as (runtime & Hrt & _).
  exists runtime. exact Hrt.
Defined.

(** C2 as stated fails when the runtime has a field named [kind]:
    [set_runtime] with the extra keyword [kind] = ["custom"], then a flush
    that succeeds.  The batch has two events and the first holds the
    provider and the model, but its [kind] is ["custom"], where the claim
    has ["runtime"]. *)
Lemma C2_counterexample :
  let r := flush (H := samples.repr_unread) (script [samples.ok_response])
             (samples.runtime_with_kind samples.one_buffered) in
  returned r = Ok (Some samples.ok_body) ∧
  map (λ req, length (p_events (json req))) (posts r) = [2%nat] ∧
  map (λ req, head (p_events (json req)) ≫= (.!! "provider")) (posts r)
  = [Some (PStr "anthropic")] ∧
  map (λ req, head (p_events (json req)) ≫= (.!! "subtype")) (posts r)
  = [Some (PStr "runtime_info")] ∧
  map (λ req, head (p_events (json req)) ≫= (.!! "kind")) (posts r)
  = [Some (PStr "custom")] ∧
  PStr "custom" ≠ PStr "runtime".
Proof. vm_compute. repeat split; discriminate. Qed.

Section execution_id_properties.
Context `{Repr}.

(** One call: without a flush the execution id is untouched; a flush it
    invoked ran on a client with the caller's execution id. *)
Lemma do_call_execution_id c k :
  ((do_call c k).2 = [] ∧ execution_id (do_call c k).1 = execution_id c) ∨
  (∃ t c',
     (do_call c k).2 = [{| before := c'; run := flush t c' |}] ∧
     (do_call c k).1 = after (flush t c') ∧
     execution_id c' = execution_id c).
Proof.
  destruct (is_set_runtime k) eqn:Hk.
  - destruct k; try discriminate. left. done.
  - destruct (do_call_cases c k Hk)
      as [(Hl & _ & He) | (t & c' & Hl & Hc & _ & He)]; [by left|].
    right. by exists t, c'.
Qed.

(** The response body of a single flush, as a list. *)
Lemma delivered_one c' (r : flush_run) :
  omap delivered [{| before := c'; run := r |}]
  = match returned r with Ok (Some data) => [data] | _ => [] end.
Proof.
  unfold delivered. cbn. by destruct (returned r) as [[d|]|].
Qed.

(** The execution id after a sequence of calls: the one the client had,
    or, when it had none, the first one a response body carried. *)
Lemma execution_id_trace ks : ∀ c,
  execution_id (do_calls c ks).1 =
    if is_none (execution_id c)
    then first_execution_id (omap delivered (do_calls c ks).2)
    else execution_id c.
Proof.
  induction ks as [|k ks IH]; intros c.
  { cbn. by destruct (execution_id c). }
  cbn [do_calls fst snd]. rewrite IH, omap_app.
  destruct (do_call_execution_id c k)
    as [(Hl & He) | (t & c' & Hl & Hc & He)].
  - rewrite Hl, He. done.
  - rewrite Hl, Hc, delivered_one.
    destruct (flush_cases t c') as [_ [(data & Hr & Ha & _) | [Hr Ha]]].
    + rewrite Hr, (flush_commit_execution_id _ _ _ Ha), He. cbn [app].
      destruct (is_none (execution_id c)) eqn:Hn; [|by rewrite Hn].
      destruct data as [| b | z | q | s | l | body];
        cbn [first_execution_id]; try done.
      destruct (body !! "execution_id") as [v|]; cbn; [|done].
      by destruct v.
    + rewrite Ha, He.
      destruct (returned (flush t c')) as [[d|]|] eqn:Hret; [|done|done].
      by destruct (Hr d).
Qed.

Lemma do_calls_app ks1 ks2 c :
  (do_calls c (ks1 ++ ks2)).1 = (do_calls (do_calls c ks1).1 ks2).1.
Proof.
  revert c. induction ks1 as [|k ks1 IH]; intros c; [done|].
  cbn [app do_calls fst]. apply IH.
Qed.

(** C3.  Over any sequence of tracking calls, flushes and [set_runtime]
    calls, against any transports: an execution id that is not [None] is
    never replaced, whatever the later responses carry; a client without
    one ends with the execution id of the first successful flush response
    that carries one, or without one if none does; so once the id is
    present after a part of the calls, it is the id at the end.  A new
    client has none. *)
Theorem C3_execution_id_write_once (c : SurfaClient) (ks : list call) :
  let final := (do_calls c ks).1 in
  let bodies := omap delivered (do_calls c ks).2 in
  (execution_id c ≠ PNone → execution_id final = execution_id c) ∧
  (execution_id c = PNone →
   execution_id final = first_execution_id bodies) ∧
  (∀ ks1 ks2,
     ks = ks1 ++ ks2 → execution_id (do_calls c ks1).1 ≠ PNone →
     execution_id final = execution_id (do_calls c ks1).1) ∧
  (∀ fresh key url threshold seconds c0,
     init fresh key url threshold seconds = Ok c0 →
     execution_id c0 = PNone ∧ _buffer c0 = []).
Proof.
  cbn zeta.
  assert (Hkeep : ∀ c' ks', execution_id c' ≠ PNone →
                            execution_id (do_calls c' ks').1 = execution_id c').
  { intros c' ks' Hx. rewrite execution_id_trace.
    by destruct (execution_id c'). }
  split; [apply Hkeep|]. split.
  { intros Hx. rewrite execution_id_trace, Hx. done. }
  split.
  { intros ks1 ks2 -> Hx. rewrite do_calls_app. by apply Hkeep. }
  intros fresh key url threshold seconds c0. unfold init.
  destruct (utils.validate_ingest_key key) as [b | e]; [|by destruct e].
  intros Hc. by inversion Hc.
Qed.

End execution_id_properties.

(** C3 on [samples.two_ids]: the id of the first response is stored and
    the different id of the second response does not replace it. *)
Lemma C3_execution_id_write_once_witness :
  execution_id samples.one_buffered = PNone ∧
  execution_id
    (do_calls (H := samples.repr_unread) samples.one_buffered
       samples.two_ids).1
  = PStr "exec-1".
Proof.
  split; [reflexivity|].
  rewrite (proj1 (proj2 (C3_execution_id_write_once
                           (H := samples.repr_unread) samples.one_buffered
                           samples.two_ids)) eq_refl).
  vm_compute. reflexivity.
Defined.

Section thread_properties.
Context `{Repr}.






End thread_properties.


(** * Further properties of the code *)

Import notions.

Section configuration_properties.

Lemma startswith_iff p s : startswith p s = true ↔ ∃ rest, s = p +:+ rest.
Proof.
  unfold startswith. revert p.
  induction s as [|b s IH]; intros [|a p]; cbn [String.prefix].
  - split; [intros _; by exists EmptyString | done].
  - split; [discriminate | intros [rest Hr]; discriminate].
  - split; [intros _; by exists (String b s) | done].
  - destruct (ascii_dec a b) as [-> | Hab].
    + rewrite IH. split; intros [rest Hr]; exists rest.
      * change (String b s = String b (p +:+ rest)). congruence.
      * change (String b s = String b (p +:+ rest)) in Hr. congruence.
    + split; [discriminate|]. intros [rest Hr].
      change (String b s = String a (p +:+ rest)) in Hr. congruence.
Qed.

(** X1.  [validate_ingest_key] returns [True] exactly on a key that starts
    with [sk_live_] or [sk_test_] and has at least 20 characters; on every
    other key it raises [ValueError], and never returns [False].  The empty
    key is reported as empty, not as a wrong prefix. *)
Theorem validate_ingest_key_spec (key : string) :
  (well_formed_key key ∧ utils.validate_ingest_key key = Ok true ∨
   ¬ well_formed_key key ∧
   ∃ m, utils.validate_ingest_key key = Raise (ValueError m)) ∧
  utils.validate_ingest_key ""
  = Raise (ValueError "Ingest key cannot be empty").
Proof.
  split; [|reflexivity].
  unfold utils.validate_ingest_key, well_formed_key.
  destruct (String.eqb_spec key "") as [-> | Hne].
  { right. split; [|eauto]. cbn. intros [_ Hlen]. lia. }
  destruct (startswith "sk_live_" key) eqn:Hl;
    destruct (startswith "sk_test_" key) eqn:Ht; cbn [negb andb].
  4:{ right. split; [|eauto]. intros [[Hp | Hp] _];
        apply startswith_iff in Hp; congruence. }
  all: destruct (Z.ltb_spec (Z.of_nat (String.length key)) 20) as [Hs | Hs].
  all: try (right; split; [intros [_ Hlen]; lia | eauto]).
  all: left; split; [|done]; split; [|lia].
  all: first [left; by apply startswith_iff | right; by apply startswith_iff].
Qed.

(** [rstrip('/')] removes a run of slashes from the end and nothing else. *)
Lemma rstrip_slash_decompose s : ∃ n, s = rstrip_slash s +:+ slashes n.
Proof.
  induction s as [|a s [n IH]]; [by exists 0%nat|].
  cbn [rstrip_slash]. destruct (rstrip_slash s) as [|b r] eqn:Hr.
  - cbn in IH. destruct (Ascii.eqb_spec a "/"%char) as [-> | Hne].
    + exists (S n). cbn. by rewrite IH.
    + exists n. cbn. by rewrite IH.
  - exists n. cbn. cbn in IH. by rewrite IH.
Qed.

Lemma rstrip_slash_stripped s : ends_in_slash (rstrip_slash s) = false.
Proof.
  induction s as [|a s IH]; [done|].
  cbn [rstrip_slash]. destruct (rstrip_slash s) as [|b r] eqn:Hr.
  - destruct (Ascii.eqb_spec a "/"%char) as [-> | Hne]; [done|].
    cbn. by apply Ascii.eqb_neq.
  - exact IH.
Qed.

(** X2.  Constructing a client succeeds exactly on a well-formed key.  The
    new client keeps the key, the threshold, the timeout and the session id
    it was given; its API URL is the given one without its trailing
    slashes; it has no execution id, an empty buffer, no runtime, and both
    flags are false.  On any other key the constructor raises
    [SurfaConfigError] with the validator's message after
    ["Invalid ingest key: "], and nothing else. *)
Theorem init_outcome (fresh key url : string) (threshold seconds : Z) :
  well_formed_key key ∧
  (∃ c, init fresh key url threshold seconds = Ok c ∧
        configuration c = (key, api_url c, threshold, seconds, fresh) ∧
        ends_in_slash (api_url c) = false ∧
        (∃ n, url = api_url c +:+ slashes n) ∧
        execution_id c = PNone ∧ _buffer c = [] ∧ _runtime c = None ∧
        _runtime_info_emitted c = false ∧ _session_ended c = false) ∨
  ¬ well_formed_key key ∧
  (∃ m, utils.validate_ingest_key key = Raise (ValueError m) ∧
        init fresh key url threshold seconds
        = Raise (SurfaConfigError ("Invalid ingest key: " +:+ m))).
Proof.
  unfold init.
  destruct (validate_ingest_key_spec key) as [[[Hw Hv] | [Hw [m Hv]]] _];
    rewrite Hv.
  - left. split; [exact Hw|]. eexists. split; [reflexivity|]. cbn.
    split; [done|]. split; [apply rstrip_slash_stripped|].
    split; [apply rstrip_slash_decompose|]. done.
  - right. split; [exact Hw|]. by exists m.
Qed.

(** X3.  [merge_dicts] returns the base with the override laid over it: a
    key of the override has the override's value, any other key the
    base's; the keys are those of both.  Merging with an empty dictionary
    on either side changes nothing, merging a dictionary with itself gives
    it back, and merging in two steps is the same from the left and from
    the right. *)
Theorem merge_dicts_override (base override : dict) :
  (∀ k, utils.merge_dicts base override !! k
        = match override !! k with
          | Some v => Some v
          | None => base !! k
          end) ∧
  dom (utils.merge_dicts base override) = dom base ∪ dom override ∧
  utils.merge_dicts base ∅ = base ∧
  utils.merge_dicts ∅ override = override ∧
  utils.merge_dicts base base = base ∧
  (∀ third,
     utils.merge_dicts (utils.merge_dicts base override) third
     = utils.merge_dicts base (utils.merge_dicts override third)).
Proof.
  unfold utils.merge_dicts, update.
  split.
  { intros k. destruct (override !! k) as [v|] eqn:Hk.
    - by apply lookup_union_Some_l.
    - by rewrite lookup_union_r. }
  split.
  { rewrite dom_union_L. apply set_eq. intros x.
    rewrite !elem_of_union. tauto. }
  split; [by rewrite (left_id_L ∅ (∪))|].
  split; [by rewrite (right_id_L ∅ (∪))|].
  split; [by rewrite (idemp_L (∪))|].
  intros third. by rewrite (assoc_L (∪)).
Qed.

(** X4.  [validate_event] returns [True] exactly on an event whose [kind]
    is a non-empty string and whose [ts], if present, is a string; on every
    other event it raises [ValueError], and never returns [False].  No
    other field is looked at: setting or removing one leaves the result as
    it was. *)
Theorem validate_event_spec (event : dict) :
  (well_formed_event event ∧ validate_event event = Ok true ∨
   ¬ well_formed_event event ∧
   ∃ m, validate_event event = Raise (ValueError m)) ∧
  (∀ k v, k ≠ "kind" → k ≠ "ts" →
          validate_event (<[k := v]> event) = validate_event event) ∧
  (∀ k, k ≠ "kind" → k ≠ "ts" →
        validate_event (delete k event) = validate_event event).
Proof.
  split; [|split].
  - unfold validate_event, well_formed_event.
    destruct (event !! "kind") as [kind|] eqn:Hk.
    2:{ right. split; [|eauto]. intros [(s & Hs & _) _]. discriminate. }
    destruct kind as [| b | z | q | s | l | d]; cbn [is_str negb].
    5:{ cbn [truthy]. destruct (String.eqb_spec s "") as [-> | Hne]; cbn.
        { right. split; [|eauto]. intros [(s' & Hs & Hne) _].
          by inversion Hs; subst. }
        destruct (event !! "ts") as [ts|] eqn:Ht.
        - destruct (is_str ts) eqn:Hstr; cbn.
          + left. split; [|done]. split; [by exists s|].
            intros ts' Hts. by inversion Hts; subst.
          + right. split; [|eauto]. intros [_ Hts].
            specialize (Hts ts eq_refl). congruence.
        - left. split; [|done]. split; [by exists s | done]. }
    all: right; split; [|eauto]; intros [(s' & Hs & _) _]; discriminate.
  - intros k v Hkind Hts. unfold validate_event.
    by rewrite !lookup_insert_ne by done.
  - intros k Hkind Hts. unfold validate_event.
    by rewrite !lookup_delete_ne by done.
Qed.

End configuration_properties.

Section factory_behaviour.

Lemma lookup_set_if_not_none k v (d : dict) k' :
  set_if_not_none k v d !! k'
  = if decide (k = k') then (if is_none v then d !! k' else Some v)
    else d !! k'.
Proof.
  unfold set_if_not_none. destruct (is_none v); case_decide; subst;
    rewrite ?lookup_insert_eq, ?lookup_insert_ne by done; done.
Qed.

(** The event of the named arguments alone, field by field. *)
Lemma create_event_named_lookup now kind subtype tool_name status direction
    method correlation_id span_parent_id latency_ms ts k :
  create_event now kind subtype tool_name status direction method
    correlation_id span_parent_id latency_ms ts None ∅ !! k
  = if decide (k = "latency_ms") then given latency_ms
    else if decide (k = "span_parent_id") then given span_parent_id
    else if decide (k = "correlation_id") then given correlation_id
    else if decide (k = "method") then given method
    else if decide (k = "direction") then given direction
    else if decide (k = "status") then given status
    else if decide (k = "tool_name") then given tool_name
    else if decide (k = "subtype") then given subtype
    else if decide (k = "kind") then Some kind
    else if decide (k = "ts") then Some (if truthy ts then ts else PStr now)
    else None.
Proof.
  unfold create_event, given. cbn [from_option orb dict_truthy].
  replace (dict_truthy ∅) with false by reflexivity. cbn [orb].
  rewrite !lookup_set_if_not_none.
  repeat (case_decide; subst; [try done|]).
  all: repeat (case_decide; [congruence|]).
  all: try (rewrite ?lookup_insert_eq; done).
  all: try (rewrite lookup_insert_ne by done; rewrite ?lookup_singleton_eq;
            done).
  rewrite lookup_insert_ne by done. by rewrite lookup_singleton_ne.
Qed.

(** X5.  The event [create_event] returns is the event of its named
    arguments with the payload and then the keywords laid over it, flat.
    The event of the named arguments always has [kind] and [ts]; [ts] is
    the one given, or the current time when the one given is [None] or the
    empty string; each of the eight optional arguments is a field when it
    is not [None] and is absent when it is; there is no other field. *)
Theorem create_event_flattens now kind subtype tool_name status direction
    method correlation_id span_parent_id latency_ms ts
    (payload : option dict) (kwargs : dict) :
  let named :=
    create_event now kind subtype tool_name status direction method
      correlation_id span_parent_id latency_ms ts None ∅ in
  create_event now kind subtype tool_name status direction method
    correlation_id span_parent_id latency_ms ts payload kwargs
  = utils.merge_dicts named
      (utils.merge_dicts (default ∅ payload) kwargs) ∧
  named !! "kind" = Some kind ∧
  named !! "ts" = Some (if truthy ts then ts else PStr now) ∧
  (truthy PNone = false ∧ truthy (PStr "") = false) ∧
  named !! "subtype" = given subtype ∧
  named !! "tool_name" = given tool_name ∧
  named !! "status" = given status ∧
  named !! "direction" = given direction ∧
  named !! "method" = given method ∧
  named !! "correlation_id" = given correlation_id ∧
  named !! "span_parent_id" = given span_parent_id ∧
  named !! "latency_ms" = given latency_ms ∧
  (∀ k, k ∉ ["kind"; "ts"; "subtype"; "tool_name"; "status"; "direction";
             "method"; "correlation_id"; "span_parent_id"; "latency_ms"] →
        named !! k = None).
Proof.
  cbn zeta. split.
  { unfold utils.merge_dicts, update.
    unfold create_event at 1. cbn zeta. rewrite merged_payload_eq.
    destruct (from_option dict_truthy false payload || dict_truthy kwargs)
      eqn:Hc; [reflexivity|].
    apply orb_false_iff in Hc as [Hp Hkw].
    rewrite (dict_truthy_false kwargs Hkw), (left_id_L ∅ (∪)).
    assert (default ∅ payload = ∅) as ->.
    { destruct payload as [d|]; [|done]. by apply dict_truthy_false. }
    by rewrite (left_id_L ∅ (∪)). }
  repeat (split; [by rewrite ?create_event_named_lookup|]).
  intros k Hk. rewrite create_event_named_lookup.
  rewrite !not_elem_of_cons in Hk.
  repeat (case_decide; [tauto|]). done.
Qed.

(** An event whose [kind] is a non-empty string and whose [ts] is a string
    is accepted. *)
Lemma validate_event_accepts (event : dict) kind ts :
  event !! "kind" = Some (PStr kind) → kind ≠ "" →
  event !! "ts" = Some (PStr ts) →
  validate_event event = Ok true.
Proof.
  intros Hk Hne Ht. unfold validate_event. rewrite Hk, Ht. cbn.
  by destruct (String.eqb_spec kind "").
Qed.

End factory_behaviour.

Section helper_behaviour.

(** X6.  Called without extra keywords, every helper returns an event that
    [validate_event] accepts, stamped with the current time and carrying
    the helper's fixed fields: [session]/[session_started] and
    [session]/[session_ended]; [tool]/[tool_call_started] with direction
    [request]; [tool]/[tool_call_completed] with direction [response] and
    status [success]; [tool]/[tool_call_failed] with direction [response]
    and status [error].  The tool name is always a field; the correlation
    id, the latency, the arguments, the result and the error are fields
    exactly when they are given.  [custom] returns an event of the given
    kind, accepted when that kind is not empty. *)
Theorem helper_conventions (now tool_name : string) :
  (∃ e, session_started now PNone ∅ = Ok e ∧
        validate_event e = Ok true ∧
        e = <["subtype" := PStr "session_started"]>
              (<["kind" := PStr "session"]> {["ts" := PStr now]})) ∧
  (∃ e, session_ended now PNone ∅ = Ok e ∧
        validate_event e = Ok true ∧
        e = <["subtype" := PStr "session_ended"]>
              (<["kind" := PStr "session"]> {["ts" := PStr now]})) ∧
  (∀ args correlation_id,
     ∃ e, tool_call_started now tool_name args correlation_id ∅ = Ok e ∧
          validate_event e = Ok true ∧
          e !! "ts" = Some (PStr now) ∧
          e !! "kind" = Some (PStr "tool") ∧
          e !! "subtype" = Some (PStr "tool_call_started") ∧
          e !! "direction" = Some (PStr "request") ∧
          e !! "status" = None ∧
          e !! "tool_name" = Some (PStr tool_name) ∧
          e !! "correlation_id" = PStr <$> correlation_id ∧
          e !! "args" = PDict <$> args) ∧
  (∀ result_ latency_ms correlation_id,
     ∃ e, tool_call_completed now tool_name result_ latency_ms
            correlation_id ∅ = Ok e ∧
          validate_event e = Ok true ∧
          e !! "ts" = Some (PStr now) ∧
          e !! "kind" = Some (PStr "tool") ∧
          e !! "subtype" = Some (PStr "tool_call_completed") ∧
          e !! "direction" = Some (PStr "response") ∧
          e !! "status" = Some (PStr "success") ∧
          e !! "tool_name" = Some (PStr tool_name) ∧
          e !! "correlation_id" = PStr <$> correlation_id ∧
          e !! "latency_ms" = PInt <$> latency_ms ∧
          e !! "result" = given result_) ∧
  (∀ error latency_ms correlation_id,
     ∃ e, tool_call_failed now tool_name error latency_ms correlation_id ∅
          = Ok e ∧
          validate_event e = Ok true ∧
          e !! "ts" = Some (PStr now) ∧
          e !! "kind" = Some (PStr "tool") ∧
          e !! "subtype" = Some (PStr "tool_call_failed") ∧
          e !! "direction" = Some (PStr "response") ∧
          e !! "status" = Some (PStr "error") ∧
          e !! "tool_name" = Some (PStr tool_name) ∧
          e !! "correlation_id" = PStr <$> correlation_id ∧
          e !! "latency_ms" = PInt <$> latency_ms ∧
          e !! "error" = PStr <$> error) ∧
  (∀ kind subtype,
     ∃ e, custom now kind subtype PNone ∅ = Ok e ∧
          e !! "ts" = Some (PStr now) ∧
          e !! "kind" = Some (PStr kind) ∧
          e !! "subtype" = PStr <$> subtype ∧
          (kind ≠ "" → validate_event e = Ok true)).
Proof.
  split; [apply ok_exists; vm_compute; split; reflexivity|].
  split; [apply ok_exists; vm_compute; split; reflexivity|].
  split.
  { intros [a|] [cid|]; apply ok_exists; vm_compute; repeat split. }
  split.
  { intros result_ [l|] [cid|]; destruct result_;
      apply ok_exists; vm_compute; repeat split. }
  split.
  { intros [err|] [l|] [cid|]; apply ok_exists; vm_compute; repeat split. }
  intros kind [sub|]; apply ok_exists;
    (assert (Hv : ∀ e : dict,
               e !! "kind" = Some (PStr kind) → e !! "ts" = Some (PStr now) →
               kind ≠ "" → validate_event e = Ok true)
       by (intros e Hk Ht Hne; by eapply validate_event_accepts));
    cbv beta; (split; [vm_compute; reflexivity|]);
    (split; [vm_compute; reflexivity|]);
    (split; [vm_compute; reflexivity|]);
    apply Hv; vm_compute; reflexivity.
Qed.

(** X7.  A keyword named [kind] or [subtype] given to [session_started] or
    [session_ended] does not replace the helper's fixed value: the call
    raises [TypeError] and returns no event.  Any other named field of
    [create_event] given as a keyword, with a value that is not [None],
    becomes that field of the event, beside the fixed kind and subtype. *)
Theorem session_helper_keywords (now : string) :
  (∀ payload (kwargs : dict),
     is_Some (kwargs !! "kind") ∨ is_Some (kwargs !! "subtype") →
     (∃ m, session_started now payload kwargs = Raise (TypeError m)) ∧
     (∃ m, session_ended now payload kwargs = Raise (TypeError m))) ∧
  (∀ k v,
     k ∈ ["tool_name"; "status"; "direction"; "method"; "correlation_id";
          "span_parent_id"; "latency_ms"] →
     is_none v = false →
     (∃ e, session_started now PNone {[k := v]} = Ok e ∧
           e !! k = Some v ∧
           e !! "kind" = Some (PStr "session") ∧
           e !! "subtype" = Some (PStr "session_started")) ∧
     (∃ e, session_ended now PNone {[k := v]} = Ok e ∧
           e !! k = Some v ∧
           e !! "kind" = Some (PStr "session") ∧
           e !! "subtype" = Some (PStr "session_ended"))).
Proof.
  split.
  - intros payload kwargs Hk. unfold session_started, session_ended.
    assert (Hc : ∀ subtype,
              ∃ m, keywords [("kind", PStr "session"); ("subtype", subtype);
                             ("payload", payload)] kwargs
                   = Raise (TypeError m)).
    { intros subtype. destruct Hk as [Hk | Hk].
      - apply (keywords_collision _ _ "kind" (PStr "session"));
          [rewrite !elem_of_cons; auto | exact Hk].
      - apply (keywords_collision _ _ "subtype" subtype);
          [rewrite !elem_of_cons; auto | exact Hk]. }
    split.
    + destruct (Hc (PStr "session_started")) as [m ->]. by exists m.
    + destruct (Hc (PStr "session_ended")) as [m ->]. by exists m.
  - intros k v Hk Hv. rewrite !elem_of_cons, elem_of_nil in Hk.
    destruct Hk as [-> | [-> | [-> | [-> | [-> | [-> | [-> | []]]]]]]];
      destruct v; try discriminate;
      (split; apply ok_exists; vm_compute; repeat split).
Qed.

(** X8.  A keyword given to a tool helper is laid over the helper's own
    fields before the event is built.  So a keyword [subtype], [direction]
    or [status] replaces the fixed value of that name, or removes the field
    when its value is [None]; and a keyword [kind] replaces the kind
    [tool], so that the event is rejected by [validate_event] when the
    value is not a non-empty string. *)
Theorem tool_helper_keywords (now tool_name : string) :
  (∀ k v,
     k ∈ ["subtype"; "direction"; "status"] →
     (∃ e, tool_call_started now tool_name None None {[k := v]} = Ok e ∧
           e !! k = given v ∧ e !! "kind" = Some (PStr "tool")) ∧
     (∃ e, tool_call_completed now tool_name PNone None None {[k := v]}
           = Ok e ∧
           e !! k = given v ∧ e !! "kind" = Some (PStr "tool")) ∧
     (∃ e, tool_call_failed now tool_name None None None {[k := v]} = Ok e ∧
           e !! k = given v ∧ e !! "kind" = Some (PStr "tool"))) ∧
  (∀ v,
     (∃ e, tool_call_started now tool_name None None {["kind" := v]} = Ok e ∧
           e !! "kind" = Some v) ∧
     (∃ e, tool_call_completed now tool_name PNone None None
             {["kind" := v]} = Ok e ∧
           e !! "kind" = Some v) ∧
     (∃ e, tool_call_failed now tool_name None None None {["kind" := v]}
           = Ok e ∧
           e !! "kind" = Some v)) ∧
  (∀ v, is_str v = false ∨ v = PStr "" →
        ∃ e m,
          tool_call_completed now tool_name PNone None None {["kind" := v]}
          = Ok e ∧
          validate_event e = Raise (ValueError m)).
Proof.
  split; [|split].
  - intros k v Hk. rewrite !elem_of_cons, elem_of_nil in Hk.
    destruct Hk as [-> | [-> | [-> | []]]]; destruct v;
      (repeat split; apply ok_exists; vm_compute; by split).
  - intros v. repeat split; apply ok_exists; vm_compute; reflexivity.
  - intros v Hv.
    assert (He : ∃ e, tool_call_completed now tool_name PNone None None
                        {["kind" := v]} = Ok e ∧ e !! "kind" = Some v).
    { apply ok_exists. vm_compute. reflexivity. }
    destruct He as (e & He & Hk).
    destruct (validate_event_bad_kind e v Hk Hv) as [m Hm].
    by exists e, m.
Qed.

End helper_behaviour.

Section delivery_behaviour.
Context `{Repr}.

(** A transport failure that is retried: sleep and go on before the last
    attempt, raise [SurfaNetworkError] at the last one. *)
Lemma handle_network_failure o attempt e :
  network_failure o = Some e →
  handle o attempt =
    if (attempt <? max_retries - 1)%nat
    then SleepAndContinue (SurfaNetworkError ("Network error: " +:+ e))
                          (backoff attempt)
    else Throw (SurfaNetworkError ("Network error: " +:+ e)).
Proof. destruct o; cbn; intros He; inversion He; subst; reflexivity. Qed.

(** Where a [SurfaNetworkError] comes from. *)
Lemma handle_network_error o attempt m :
  handle o attempt = Throw (SurfaNetworkError m) →
  (∃ e, o = RaisesRequestException e ∧ m = "Request failed: " +:+ e) ∨
  (∃ e, network_failure o = Some e ∧ m = "Network error: " +:+ e ∧
        ¬ (attempt < max_retries - 1)%nat).
Proof.
  unfold handle. intros Hh.
  destruct o as [s text js | e | e | e].
  - case_ifs Hh; try discriminate; inversion Hh; subst;
      match goal with
      | Hw : with_error_field _ _ = Raise _ |- _ =>
          apply with_error_field_raises in Hw as [[? ?] _]; discriminate
      end.
  - destruct (Nat.ltb_spec attempt (max_retries - 1)); [discriminate|].
    inversion Hh; subst. right. exists e. split; [done|]. split; [done|lia].
  - destruct (Nat.ltb_spec attempt (max_retries - 1)); [discriminate|].
    inversion Hh; subst. right. exists e. split; [done|]. split; [done|lia].
  - inversion Hh; subst. left. by exists e.
Qed.

(** A transport failure is a retryable outcome. *)
Lemma network_failure_retryable o e :
  network_failure o = Some e → retryable o = true.
Proof. by destruct o. Qed.

(** X9.  Transport failures, on a non-empty buffer.  A [Timeout] or a
    [ConnectionError] is retried like a retryable status: three of them in
    a row end, after sleeps of 0.5 and 1.0, in a [SurfaNetworkError] with
    the text of the third; one followed by a 2xx response ends after one
    sleep of 0.5 and two posts, in success when the body of the response is
    a JSON object or does not parse, and otherwise in success or in a
    [TypeError] that leaves the client as it was.  Any other
    [RequestException] raises [SurfaNetworkError] at the attempt it
    occurs in, without a further post or sleep.  A [SurfaNetworkError] has
    no other origin, and in all these failures the client is left as it
    was. *)
Theorem network_failure_policy (t : transport) (c : SurfaClient) :
  _buffer c ≠ [] →
  (∀ n e,
     attempted t n → t n = RaisesRequestException e →
     returned (flush t c)
     = Raise (SurfaNetworkError ("Request failed: " +:+ e)) ∧
     length (posts (flush t c)) = S n ∧
     sleeps (flush t c) = map backoff (seq 0 n) ∧
     after (flush t c) = c) ∧
  (∀ e0 e1 e2,
     network_failure (t 0%nat) = Some e0 →
     network_failure (t 1%nat) = Some e1 →
     network_failure (t 2%nat) = Some e2 →
     returned (flush t c)
     = Raise (SurfaNetworkError ("Network error: " +:+ e2)) ∧
     length (posts (flush t c)) = 3%nat ∧
     sleeps (flush t c) = [(1 # 2)%Q; 1%Q] ∧
     after (flush t c) = c) ∧
  (∀ e0 status text js,
     network_failure (t 0%nat) = Some e0 →
     t 1%nat = Response status text js → 200 ≤ status < 300 →
     length (posts (flush t c)) = 2%nat ∧
     sleeps (flush t c) = [(1 # 2)%Q] ∧
     (object_or_invalid js →
      returned (flush t c) = Ok (Some (default (PDict ∅) js)) ∧
      _buffer (after (flush t c)) = []) ∧
     (returned (flush t c) = Ok (Some (default (PDict ∅) js)) ∧
      _buffer (after (flush t c)) = [] ∨
      ∃ m, returned (flush t c) = Raise (TypeError m) ∧
           ¬ object_or_invalid js ∧ after (flush t c) = c)) ∧
  (∀ m,
     returned (flush t c) = Raise (SurfaNetworkError m) →
     after (flush t c) = c ∧
     ((∃ e, t (length (posts (flush t c)) - 1)%nat
            = RaisesRequestException e ∧
            m = "Request failed: " +:+ e) ∨
      (∃ e, network_failure (t 2%nat) = Some e ∧
            m = "Network error: " +:+ e ∧
            length (posts (flush t c)) = 3%nat))).
Proof.
  intros Hne. split; [|split; [|split]].
  - intros n e Hn Ht.
    assert (Hh : handle (t n) n
                 = Throw (SurfaNetworkError ("Request failed: " +:+ e)))
      by (by rewrite Ht).
    destruct (flush_throws t c n _ Hne Hn Hh) as (Hret & Ha & Hp & Hs).
    by rewrite Hp, length_replicate.
  - intros e0 e1 e2 H0 H1 H2. unfold flush, flush_shared.
    destruct (_buffer c) as [|ev b]; [done|].
    cbn [max_retries seq for_attempts]. unfold alone.
    rewrite (handle_network_failure _ _ _ H0). cbn.
    rewrite (handle_network_failure _ _ _ H1). cbn.
    rewrite (handle_network_failure _ _ _ H2). cbn. done.
  - intros e0 status text js H0 H1 Hs.
    assert (Hn : attempted t 1).
    { split; [unfold max_retries; lia|]. intros i Hi.
      assert (i = 0%nat) as -> by lia.
      by eapply network_failure_retryable. }
    assert (Hh : handle (t 1%nat) 1 = Return (default (PDict ∅) js))
      by (by rewrite H1, handle_success).
    destruct (flush_returns t c 1 _ Hne Hn Hh) as (Hp & Hsl & Hcase).
    rewrite Hp, Hsl. split; [done|]. split; [done|].
    destruct (flush_commit c (default (PDict ∅) js)) as [c'|e] eqn:Hc.
    + destruct Hcase as [-> ->].
      apply flush_commit_fields in Hc as [Hb _]. auto.
    + destruct Hcase as [Hret Ha].
      apply flush_commit_raises in Hc as Hty. destruct Hty as [[m ->] _].
      assert (Hno : ¬ object_or_invalid js).
      { intros Hobj.
        destruct (flush_commit_succeeds c js Hobj) as [c' Hc'].
        congruence. }
      split; [done|]. right. by exists m.
  - intros m Hret.
    destruct (flush_shape t c Hne)
      as (n & [Hn _] & Hp & _ & [(d & c' & _ & _ & Hd & _) | (e & Hh & He & Ha)]).
    { rewrite Hret in Hd. discriminate. }
    rewrite Hret in He. inversion He; subst e. split; [exact Ha|].
    destruct Hh as [Hh | (d & _ & Hc)];
      [|apply flush_commit_raises in Hc as [[? ?] _]; discriminate].
    rewrite Hp, length_replicate. replace (S n - 1)%nat with n by lia.
    apply handle_network_error in Hh
      as [(e & Ho & ->) | (e & Ho & -> & Hlast)].
    + left. by exists e.
    + right. unfold max_retries in *.
      assert (n = 2%nat) as -> by lia.
      by exists e.
Qed.


(** X10.  [flush] returns [None] exactly when the buffer is empty, and then
    it posts nothing, sleeps not at all and changes nothing, even when a
    runtime-info event is due.  So after a flush that returned, a second
    flush is such a no-op, against any transport. *)
Theorem flush_twice (t u : transport) (c : SurfaClient) :
  (returned (flush t c) = Ok None ↔ _buffer c = []) ∧
  (_buffer c = [] →
   flush t c
   = {| returned := Ok None; after := c; sleeps := []; posts := [] |}) ∧
  (is_ok (returned (flush t c)) = true →
   flush u (after (flush t c))
   = {| returned := Ok None; after := after (flush t c); sleeps := [];
        posts := [] |}).
Proof.
  assert (Hempty : ∀ (w : transport) x, _buffer x = [] →
            flush w x = {| returned := Ok None; after := x; sleeps := [];
                           posts := [] |}).
  { intros w x Hx. unfold flush, flush_shared. by rewrite Hx. }
  split; [|split; [apply Hempty|]].
  - split; [|intros Hb; by rewrite Hempty].
    intros Hr. destruct (_buffer c) as [|e b] eqn:Hb; [done|].
    assert (Hne : _buffer c ≠ []) by (rewrite Hb; discriminate).
    destruct (flush_shape t c Hne)
      as (n & _ & _ & _ & [(d & c' & _ & _ & Hd & _) | (x & _ & He & _)]);
      congruence.
  - intros Hok. apply Hempty.
    destruct (flush_cases t c) as [_ [(d & Hd & Ha & _) | [Hn Ha]]].
    + apply (flush_commit_fields _ _ _ Ha).
    + rewrite Ha. destruct (_buffer c) as [|e b] eqn:Hb; [done|].
      assert (Hne : _buffer c ≠ []) by (rewrite Hb; discriminate).
      destruct (flush_shape t c Hne)
        as (n & _ & _ & _ & [(d & c' & _ & _ & Hd & _) | (x & _ & He & _)]).
      * by destruct (Hn d).
      * rewrite He in Hok. discriminate.
Qed.

(** X11.  When the flush a tracking call invokes raises, the call raises
    that error although the event was accepted: the event is in the buffer,
    behind the events that were there.  The buffer is then at or over the
    threshold, so the next valid event is appended and the whole buffer is
    flushed again, in order. *)
Theorem auto_flush_failure (t u : transport) (event next : dict)
    (c : SurfaClient) (e : exn) :
  validate_event event = Ok true →
  flush_at c ≤ Z.of_nat (length (_buffer c ++ [event])) →
  returned (flush t (set_buffer (_buffer c ++ [event]) c)) = Raise e →
  let r := track_raw t event c in
  t_returned r = Raise e ∧
  _buffer (t_after r) = _buffer c ++ [event] ∧
  t_after r = set_buffer (_buffer c ++ [event]) c ∧
  (validate_event next = Ok true →
   flushed (track_raw u next (t_after r))
   = Some (flush u (set_buffer (_buffer c ++ [event; next]) c)) ∧
   Forall (λ req, ∃ front,
             p_events (json req) = front ++ _buffer c ++ [event; next])
          (posts (flush u (set_buffer (_buffer c ++ [event; next]) c)))).
Proof.
  intros Hv Hge Hret. cbn zeta.
  assert (Ha : after (flush t (set_buffer (_buffer c ++ [event]) c))
               = set_buffer (_buffer c ++ [event]) c).
  { destruct (flush_cases t (set_buffer (_buffer c ++ [event]) c))
      as [_ [(d & Hd & _) | [_ Ha]]]; [congruence | exact Ha]. }
  assert (Hr : track_raw t event c
               = {| t_returned := Raise e;
                    t_after := set_buffer (_buffer c ++ [event]) c;
                    flushed :=
                      Some (flush t (set_buffer (_buffer c ++ [event]) c)) |}).
  { unfold track_raw. rewrite Hv. cbn [_buffer set_buffer flush_at].
    destruct (Z.geb_spec (Z.of_nat (length (_buffer c ++ [event])))
                (flush_at c)) as [_ | Hlt]; [|lia].
    cbn zeta. rewrite Hret, Ha. reflexivity. }
  rewrite Hr. cbn [t_returned t_after _buffer set_buffer].
  split; [done|]. split; [done|]. split; [done|].
  intros Hn.
  assert (Hc : set_buffer ((_buffer c ++ [event]) ++ [next])
                 (set_buffer (_buffer c ++ [event]) c)
               = set_buffer (_buffer c ++ [event; next]) c).
  { unfold set_buffer. cbn. by rewrite <- app_assoc. }
  split.
  - unfold track_raw. rewrite Hn. cbn [_buffer set_buffer flush_at].
    destruct (Z.geb_spec
                (Z.of_nat (length ((_buffer c ++ [event]) ++ [next])))
                (flush_at c)) as [_ | Hlt].
    + cbn zeta. cbn [flushed]. f_equal. f_equal. exact Hc.
    + rewrite !length_app in Hlt. rewrite length_app in Hge.
      cbn [length] in Hlt, Hge. lia.
  - destruct (flush_cases u (set_buffer (_buffer c ++ [event; next]) c))
      as [Hall _].
    eapply Forall_impl; [exact Hall|]. intros req ->.
    cbn [json build_request p_events]. unfold events_to_send.
    destruct (runtime_info_due _); cbn [_buffer set_buffer].
    + by eexists [_].
    + by exists [].
Qed.

End delivery_behaviour.

Section trace_behaviour.
Context `{Repr}.

(** X12.  Valid events tracked while the buffer stays below the threshold
    are appended in the order of the calls, behind the events already
    there; nothing is posted and nothing else changes.  The flush that
    follows sends them in that order, behind at most one inserted event. *)
Theorem tracking_keeps_order (ks : list call) (events : list dict)
    (c : SurfaClient) :
  tracks ks events →
  Forall (λ event, validate_event event = Ok true) events →
  Z.of_nat (length (_buffer c) + length events) < flush_at c →
  (do_calls c ks).2 = [] ∧
  (do_calls c ks).1 = set_buffer (_buffer c ++ events) c ∧
  ∀ t, Forall (λ req, ∃ front,
                 p_events (json req) = front ++ _buffer c ++ events ∧
                 (length front ≤ 1)%nat)
              (posts (flush t (do_calls c ks).1)).
Proof.
  intros Htr Hv Hlt.
  assert (Hrun : (do_calls c ks).2 = [] ∧
                 (do_calls c ks).1 = set_buffer (_buffer c ++ events) c).
  { revert c Hv Hlt.
    induction Htr as [|k event ks events [t ->] _ IH]; intros c Hv Hlt.
    - cbn. rewrite app_nil_r. by destruct c.
    - apply Forall_cons in Hv as [Hv Hvs]. cbn [length] in Hlt.
      cbn [do_calls do_call fst snd].
      rewrite track_raw_below;
        [|done | rewrite length_app; cbn [length]; lia].
      cbn [t_after flushed fst snd].
      destruct (IH (set_buffer (_buffer c ++ [event]) c) Hvs) as [Hl Hc].
      { cbn [_buffer set_buffer flush_at]. rewrite length_app.
        cbn [length]. lia. }
      rewrite Hl, Hc. cbn [_buffer set_buffer].
      rewrite <- app_assoc. done. }
  destruct Hrun as [Hl Hc]. split; [exact Hl|]. split; [exact Hc|].
  intros t. rewrite Hc.
  destruct (flush_cases t (set_buffer (_buffer c ++ events) c)) as [Hall _].
  eapply Forall_impl; [exact Hall|]. intros req ->.
  cbn [json build_request p_events]. unfold events_to_send.
  destruct (runtime_info_due _); cbn [_buffer set_buffer].
  - eexists [_]. split; [reflexivity|]. cbn. lia.
  - exists []. split; [reflexivity|]. cbn. lia.
Qed.

(** A flush leaves the configuration alone. *)
Lemma flush_configuration t c :
  configuration (after (flush t c)) = configuration c.
Proof.
  destruct (flush_cases t c) as [_ [(d & _ & Ha & _) | [_ Ha]]];
    [|by rewrite Ha].
  unfold configuration.
  pose proof (flush_commit_fields _ _ _ Ha) as (_ & -> & -> & -> & -> & -> & _).
  done.
Qed.

(** One call: the configuration is kept, and a flush it invoked ran on a
    client of that configuration. *)
Lemma do_call_configuration c k :
  configuration (do_call c k).1 = configuration c ∧
  Forall (λ fc, configuration (before fc) = configuration c ∧
                ∃ t, run fc = flush t (before fc))
         (do_call c k).2.
Proof.
  destruct k as [t event | t | provider model mode extra kwargs];
    cbn [do_call fst snd].
  - destruct (track_raw_cases t event c) as [[Hf Ha] | [Hf Ha]]; rewrite Hf.
    + split; [by destruct Ha as [-> | ->] | constructor].
    + rewrite Ha, flush_configuration. split; [done|].
      constructor; [|constructor]. split; [done|]. by exists t.
  - rewrite flush_configuration. split; [done|].
    constructor; [|constructor]. split; [done|]. by exists t.
  - split; [done | constructor].
Qed.

(** X13.  No sequence of tracking calls, flushes and [set_runtime] calls
    changes the key, the API URL, the threshold, the timeout or the session
    id of a client.  So every request of every flush goes to the same URL,
    the API URL followed by [/api/v1/ingest/events], with the same bearer
    key, the JSON content type and the same timeout, and carries the same
    session id. *)
Theorem requests_keep_session (c : SurfaClient) (ks : list call) :
  configuration (do_calls c ks).1 = configuration c ∧
  Forall (λ req,
            url req = api_url c +:+ "/api/v1/ingest/events" ∧
            authorization req = "Bearer " +:+ ingest_key c ∧
            content_type req = "application/json" ∧
            timeout req = timeout_s c ∧
            p_session_id (json req) = session_id c)
         (requests_of (do_calls c ks).2).
Proof.
  revert c. induction ks as [|k ks IH]; intros c; [split; [done|constructor]|].
  cbn [do_calls fst snd].
  destruct (do_call_configuration c k) as [Hc Hlog].
  destruct (IH (do_call c k).1) as [Hc' Hreq].
  split; [congruence|].
  unfold requests_of. rewrite map_app, concat_app. apply Forall_app. split.
  - apply Forall_concat, Forall_map.
    eapply Forall_impl; [exact Hlog|]. intros fc [Hcf [t Hrun]]. cbn beta.
    rewrite Hrun.
    destruct (flush_cases t (before fc)) as [Hall _].
    eapply Forall_impl; [exact Hall|]. intros req ->.
    unfold configuration in Hcf. inversion Hcf as [[Hk Hu Hf Ht Hs]].
    cbn [url authorization content_type timeout json p_session_id
         build_request].
    rewrite Hk, Hu, Ht, Hs. done.
  - eapply Forall_impl; [exact Hreq|]. intros req.
    unfold configuration in Hc. inversion Hc as [[Hk Hu Hf Ht Hs]].
    rewrite Hk, Hu, Ht, Hs. done.
Qed.

(** X14.  A request carries an execution id exactly when the client has one
    on entry to the flush, and then that one.  Once the client has an
    execution id, every request of every later flush carries it, whatever
    the calls in between and whatever the responses. *)
Theorem requests_carry_execution_id (c : SurfaClient) (ks : list call) :
  (∀ t, Forall (λ req, p_execution_id (json req) = given (execution_id c))
               (posts (flush t c))) ∧
  (execution_id c ≠ PNone →
   Forall (λ req, p_execution_id (json req) = Some (execution_id c))
          (requests_of (do_calls c ks).2)).
Proof.
  split.
  { intros t. destruct (flush_cases t c) as [Hall _].
    eapply Forall_impl; [exact Hall|]. intros req ->. reflexivity. }
  revert c. induction ks as [|k ks IH]; intros c Hx; [constructor|].
  cbn [do_calls fst snd].
  unfold requests_of. rewrite map_app, concat_app. apply Forall_app.
  assert (Hg : given (execution_id c) = Some (execution_id c)).
  { unfold given. by destruct (execution_id c). }
  destruct (do_call_execution_id c k)
    as [(Hl & He) | (t & c' & Hl & Hc & He)].
  - rewrite Hl. split; [constructor|].
    rewrite <- He. apply IH. by rewrite He.
  - rewrite Hl. cbn [map concat run]. rewrite app_nil_r.
    assert (Hafter : execution_id (do_call c k).1 = execution_id c).
    { rewrite Hc. destruct (flush_cases t c') as [_ [(d & _ & Ha & _) | [_ Ha]]];
        [|by rewrite Ha].
      rewrite (flush_commit_execution_id _ _ _ Ha), He.
      by destruct (execution_id c). }
    split.
    + destruct (flush_cases t c') as [Hall _].
      eapply Forall_impl; [exact Hall|]. intros req ->.
      cbn [json build_request p_execution_id]. rewrite He.
      by destruct (execution_id c).
    + rewrite <- Hafter. apply IH. by rewrite Hafter.
Qed.

(** X15.  Once a runtime is set, and until it is set again, every request
    of every flush carries it as its [runtime] field, also after the
    runtime-info event went out; a client without a runtime sends no
    [runtime] field. *)
Theorem requests_carry_runtime (c : SurfaClient) (ks : list call) :
  forallb (λ k, negb (is_set_runtime k)) ks = true →
  _runtime (do_calls c ks).1 = _runtime c ∧
  Forall (λ req, p_runtime (json req) = _runtime c)
         (requests_of (do_calls c ks).2).
Proof.
  revert c. induction ks as [|k ks IH]; intros c Hks;
    [split; [done|constructor]|].
  cbn in Hks. apply andb_true_iff in Hks as [Hk Hks].
  apply negb_true_iff in Hk.
  cbn [do_calls fst snd].
  unfold requests_of. rewrite map_app, concat_app.
  destruct (do_call_cases c k Hk)
    as [(Hl & Hrs & _) | (t & c' & Hl & Hc & Hrs & _)].
  - injection Hrs as Hrt _. destruct (IH (do_call c k).1 Hks) as [Hr Hreq].
    rewrite Hl. cbn [map concat app]. rewrite Hr, Hrt. split; [done|].
    eapply Forall_impl; [exact Hreq|]. intros req. by rewrite Hrt.
  - injection Hrs as Hrt _.
    assert (Hafter : _runtime (do_call c k).1 = _runtime c).
    { rewrite Hc. destruct (flush_cases t c') as [_ [(d & _ & Ha & _) | [_ Ha]]];
        [|by rewrite Ha].
      pose proof (flush_commit_fields _ _ _ Ha)
        as (_ & _ & _ & _ & _ & _ & -> & _).
      done. }
    destruct (IH (do_call c k).1 Hks) as [Hr Hreq].
    rewrite Hr, Hafter. split; [done|].
    rewrite Hl. cbn [map concat run]. rewrite app_nil_r.
    apply Forall_app. split.
    + destruct (flush_cases t c') as [Hall _].
      eapply Forall_impl; [exact Hall|]. intros req ->.
      cbn [json build_request p_runtime]. done.
    + eapply Forall_impl; [exact Hreq|]. intros req. by rewrite Hafter.
Qed.

(** X16.  Only validated events get into the buffer.  If every buffered
    event passes [validate_event], then after any sequence of calls every
    buffered event does, and so does every event of the buffer each flush
    ran on; each request carries that buffer, behind nothing or behind the
    one runtime-info event, which is inserted without validation. *)
Theorem buffer_holds_validated_events (c : SurfaClient) (ks : list call) :
  Forall (λ event, validate_event event = Ok true) (_buffer c) →
  Forall (λ event, validate_event event = Ok true)
         (_buffer (do_calls c ks).1) ∧
  Forall (λ fc,
            Forall (λ event, validate_event event = Ok true)
                   (_buffer (before fc)) ∧
            Forall (λ req,
                      p_events (json req) = _buffer (before fc) ∨
                      ∃ runtime,
                        _runtime (before fc) = Some runtime ∧
                        p_events (json req)
                        = runtime_info_event runtime :: _buffer (before fc))
                   (posts (run fc)))
         (do_calls c ks).2.
Proof.
  revert c. induction ks as [|k ks IH]; intros c Hv;
    [split; [done|constructor]|].
  cbn [do_calls fst snd].
  assert (Hflush : ∀ t x,
            Forall (λ event, validate_event event = Ok true) (_buffer x) →
            Forall (λ event, validate_event event = Ok true)
                   (_buffer (after (flush t x))) ∧
            Forall (λ req,
                      p_events (json req) = _buffer x ∨
                      ∃ runtime,
                        _runtime x = Some runtime ∧
                        p_events (json req)
                        = runtime_info_event runtime :: _buffer x)
                   (posts (flush t x))).
  { intros t x Hx. destruct (flush_cases t x) as [Hall Hcase]. split.
    - destruct Hcase as [(d & _ & Ha & _) | [_ Ha]]; [|by rewrite Ha].
      pose proof (flush_commit_fields _ _ _ Ha) as (-> & _). constructor.
    - eapply Forall_impl; [exact Hall|]. intros req ->.
      cbn [json build_request p_events].
      unfold events_to_send, runtime_info_due.
      destruct (_runtime x) as [runtime|]; cbn; [|by left].
      destruct (dict_truthy runtime && negb (_runtime_info_emitted x));
        [right; by exists runtime | by left]. }
  assert (Hstep : Forall (λ event, validate_event event = Ok true)
                         (_buffer (do_call c k).1) ∧
                  Forall (λ fc,
                            Forall (λ event, validate_event event = Ok true)
                                   (_buffer (before fc)) ∧
                            Forall (λ req,
                                      p_events (json req) = _buffer (before fc) ∨
                                      ∃ runtime,
                                        _runtime (before fc) = Some runtime ∧
                                        p_events (json req)
                                        = runtime_info_event runtime
                                          :: _buffer (before fc))
                                   (posts (run fc)))
                         (do_call c k).2).
  { destruct k as [t event | t | provider model mode extra kwargs];
      cbn [do_call fst snd].
    - unfold track_raw.
      destruct (validate_event_cases event) as [He | (m & He)]; rewrite He.
      + assert (Hv' : Forall (λ event, validate_event event = Ok true)
                        (_buffer (set_buffer (_buffer c ++ [event]) c))).
        { cbn. apply Forall_app. split; [done|]. by constructor. }
        cbn [_buffer set_buffer flush_at].
        destruct (Z.of_nat (length (_buffer c ++ [event])) >=? flush_at c);
          cbn [t_after flushed].
        * destruct (Hflush t _ Hv') as [Ha Hp]. split; [exact Ha|].
          constructor; [|constructor]. done.
        * split; [exact Hv' | constructor].
      + cbn. split; [done | constructor].
    - destruct (Hflush t c Hv) as [Ha Hp]. split; [exact Ha|].
      constructor; [|constructor]. done.
    - split; [done | constructor]. }
  destruct Hstep as [Hv1 Hlog1].
  destruct (IH _ Hv1) as [Hv2 Hlog2].
  split; [exact Hv2|]. apply Forall_app. done.
Qed.

End trace_behaviour.

Section session_end_behaviour.
Context `{Repr}.

(** Tracking a valid event: either it is appended and the call returns, or
    the buffer with it is flushed and the call ends as the flush does. *)
Lemma track_valid_cases t event c :
  validate_event event = Ok true →
  let appended := set_buffer (_buffer c ++ [event]) c in
  let r := track t event c in
  (flushed r = None ∧ t_returned r = Ok tt ∧ t_after r = appended) ∨
  (flushed r = Some (flush t appended) ∧
   t_returned r = bind (returned (flush t appended)) (λ _, Ok tt) ∧
   t_after r = after (flush t appended)).
Proof.
  intros Hv. cbn zeta. unfold track, track_raw. rewrite Hv.
  cbn [_buffer set_buffer flush_at].
  destruct (Z.of_nat (length (_buffer c ++ [event])) >=? flush_at c);
    cbn; auto.
Qed.

(** A flush leaves the ended flag alone. *)
Lemma flush_session_ended t c :
  _session_ended (after (flush t c)) = _session_ended c.
Proof.
  destruct (flush_cases t c) as [_ [(d & _ & Ha & _) | [_ Ha]]];
    [|by rewrite Ha].
  apply (flush_commit_fields _ _ _ Ha).
Qed.

(** A flush that returned left the buffer empty. *)
Lemma flush_ok_empties t c :
  is_ok (returned (flush t c)) = true → _buffer (after (flush t c)) = [].
Proof.
  intros Hok. destruct (_buffer c) as [|e b] eqn:Hb.
  { unfold flush, flush_shared. by rewrite Hb. }
  assert (Hne : _buffer c ≠ []) by (rewrite Hb; discriminate).
  destruct (flush_shape t c Hne)
    as (n & _ & _ & _ & [(d & c' & _ & Hc & _ & Ha) | (x & _ & He & _)]).
  - rewrite Ha. apply (flush_commit_fields _ _ _ Hc).
  - rewrite He in Hok. discriminate.
Qed.

(** The event [session_end] builds when it is given no keyword. *)
Lemma session_ended_plain now :
  events.session_ended now (payload_of ∅) (delete "payload" ∅)
  = Ok (<["subtype" := PStr "session_ended"]>
          (<["kind" := PStr "session"]> {["ts" := PStr now]})) ∧
  validate_event (<["subtype" := PStr "session_ended"]>
                    (<["kind" := PStr "session"]> {["ts" := PStr now]}))
  = Ok true.
Proof. vm_compute. split; reflexivity. Qed.

(** X17.  [session_end] tracks a [session_ended] event at most once per
    session: on a session already ended it does nothing at all.  Otherwise
    it tracks the event and sets the ended flag when tracking returns;
    when the flush that tracking invoked raises, the error passes through,
    the flag stays clear, and the event is in the buffer all the same, so
    that a second [session_end] appends a second one. *)
Theorem session_end_once (t : transport) (now : string) (c : SurfaClient) :
  let ended_event : dict :=
    <["subtype" := PStr "session_ended"]>
      (<["kind" := PStr "session"]> {["ts" := PStr now]}) in
  let appended := set_buffer (_buffer c ++ [ended_event]) c in
  let r := session_end t now ∅ c in
  (∀ kwargs, _session_ended c = true →
     session_end t now kwargs c
     = {| t_returned := Ok tt; t_after := c; flushed := None |}) ∧
  (_session_ended c = false →
   Z.of_nat (length (_buffer c ++ [ended_event])) < flush_at c →
   r = {| t_returned := Ok tt; t_after := set_session_ended true appended;
          flushed := None |}) ∧
  (_session_ended c = false → t_returned r = Ok tt →
   _session_ended (t_after r) = true ∧
   ∀ u later kwargs,
     session_end u later kwargs (t_after r)
     = {| t_returned := Ok tt; t_after := t_after r; flushed := None |}) ∧
  (_session_ended c = false → ∀ e, t_returned r = Raise e →
   flushed r = Some (flush t appended) ∧
   returned (flush t appended) = Raise e ∧
   t_after r = appended ∧
   _session_ended (t_after r) = false ∧
   _buffer (t_after r) = _buffer c ++ [ended_event]).
Proof.
  cbn zeta.
  assert (Hdone : ∀ u later kwargs x, _session_ended x = true →
            session_end u later kwargs x
            = {| t_returned := Ok tt; t_after := x; flushed := None |}).
  { intros u later kwargs x Hx. unfold session_end. by rewrite Hx. }
  split; [intros kwargs; apply Hdone|].
  destruct (session_ended_plain now) as [Hev Hval].
  set (ev := <["subtype" := PStr "session_ended"]>
               (<["kind" := PStr "session"]> {["ts" := PStr now]}) : dict)
    in *.
  assert (Hrun : _session_ended c = false →
            session_end t now ∅ c
            = match t_returned (track t ev c) with
              | Ok _ =>
                  {| t_returned := Ok tt;
                     t_after := set_session_ended true (t_after (track t ev c));
                     flushed := flushed (track t ev c) |}
              | Raise _ => track t ev c
              end).
  { intros Hc. unfold session_end. rewrite Hc. cbn [negb].
    rewrite Hev. reflexivity. }
  split; [|split].
  - intros Hc Hlt. rewrite (Hrun Hc). unfold track.
    rewrite track_raw_below by done. reflexivity.
  - intros Hc Hok. rewrite (Hrun Hc) in Hok |- *.
    destruct (t_returned (track t ev c)) as [[]|e] eqn:Hret.
    + cbn [t_after]. split; [reflexivity|].
      intros u later kwargs. by apply Hdone.
    + destruct (track_valid_cases t ev c Hval) as [(_ & Hr & _) | (_ & Hr & _)];
        rewrite Hret in Hok; congruence.
  - intros Hc e He. rewrite (Hrun Hc) in He |- *.
    destruct (t_returned (track t ev c)) as [[]|e'] eqn:Hret; [discriminate|].
    rewrite Hret in He. inversion He; subst e'.
    destruct (track_valid_cases t ev c Hval)
      as [(_ & Hr & _) | (Hf & Hr & Ha)]; [congruence|].
    rewrite Hret in Hr.
    destruct (returned (flush t (set_buffer (_buffer c ++ [ev]) c)))
      as [d | e'] eqn:Hfr; [discriminate|].
    cbn in Hr. inversion Hr; subst e'.
    assert (Hsame : after (flush t (set_buffer (_buffer c ++ [ev]) c))
                    = set_buffer (_buffer c ++ [ev]) c).
    { destruct (flush_cases t (set_buffer (_buffer c ++ [ev]) c))
        as [_ [(d & Hd & _) | [_ Hs]]]; [congruence | exact Hs]. }
    rewrite Ha, Hsame. cbn [_session_ended _buffer set_buffer]. done.
Qed.

(** How [session_end] without keywords ends: it returned, with or without
    a flush, and the session is ended; or the flush it invoked raised. *)
Lemma session_end_cases t now c :
  let r := session_end t now ∅ c in
  (t_returned r = Ok tt ∧ flushed r = None ∧
   _session_ended (t_after r) = true) ∨
  (∃ fr, t_returned r = Ok tt ∧ flushed r = Some fr ∧
         _session_ended (t_after r) = true) ∨
  (∃ e x, t_returned r = Raise e ∧ flushed r = Some (flush t x) ∧
          returned (flush t x) = Raise e ∧ t_after r = after (flush t x)).
Proof.
  cbn zeta. unfold session_end.
  destruct (_session_ended c) eqn:Hc; cbn [negb]; [by left|].
  destruct (session_ended_plain now) as [-> Hval].
  cbn [track_created].
  destruct (track_valid_cases t _ c Hval)
    as [(Hf & Hr & Ha) | (Hf & Hr & Ha)]; rewrite Hr.
  - left. cbn. by rewrite Hf.
  - destruct (returned (flush t _)) as [d|e] eqn:Hfr; cbn [bind].
    + right. left. eexists. cbn. by rewrite Hf.
    + right. right. eexists e, _.
      split; [rewrite Hr; reflexivity|]. split; [exact Hf|].
      split; [exact Hfr | exact Ha].
Qed.

(** X18.  Leaving the context manager never raises and never suppresses the
    exception of the body: [__exit__] returns [False].  It ends the session
    and flushes.  When it drops no error, the buffer is empty and the
    session is ended.  An error it drops was raised by one of its flushes,
    and the buffer still holds the events of that flush; when the error
    comes from ending the session, the final flush is not attempted. *)
Theorem exit_best_effort (t_end t_flush : transport) (now : string)
    (c : SurfaClient) :
  let x := teardown.__exit__ t_end t_flush now c in
  teardown.suppress x = false ∧
  teardown.__enter__ c = c ∧
  (length (teardown.x_flushes x) ≤ 2)%nat ∧
  (teardown.swallowed x = None →
   _buffer (teardown.x_after x) = [] ∧ _session_ended (teardown.x_after x) = true) ∧
  (∀ e, teardown.swallowed x = Some e →
     _buffer (teardown.x_after x) ≠ [] ∧
     ∃ fr, last (teardown.x_flushes x) = Some fr ∧ returned fr = Raise e ∧
           Forall (λ req, ∃ front,
                     p_events (json req) = front ++ _buffer (teardown.x_after x))
                  (posts fr)) ∧
  (∀ e, t_returned (teardown.session_ended t_end now c) = Raise e →
     teardown.swallowed x = Some e ∧
     teardown.x_after x = t_after (teardown.session_ended t_end now c) ∧
     teardown.x_flushes x = teardown.flush_of (teardown.session_ended t_end now c)).
Proof.
  cbn zeta. unfold teardown.__exit__, teardown.session_ended.
  assert (Hraise : ∀ (u : transport) x e,
            returned (flush u x) = Raise e →
            after (flush u x) = x ∧ _buffer x ≠ [] ∧
            Forall (λ req, ∃ front, p_events (json req) = front ++ _buffer x)
                   (posts (flush u x))).
  { intros u x e He.
    destruct (flush_cases u x) as [Hall [(d & Hd & _) | [_ Ha]]];
      [congruence|].
    split; [exact Ha|]. split.
    - intros Hb. unfold flush, flush_shared in He. rewrite Hb in He.
      discriminate.
    - eapply Forall_impl; [exact Hall|]. intros req ->.
      cbn [json build_request p_events]. unfold events_to_send.
      destruct (runtime_info_due x); [by eexists [_] | by exists []]. }
  destruct (session_end_cases t_end now c) as [Hs | [Hs | Hs]].
  - (* ending the session returned without a flush *)
    destruct Hs as (Hret & Hf & Hended).
    rewrite Hret. unfold teardown.flush_of. rewrite Hf.
    cbn [teardown.suppress teardown.x_after teardown.x_flushes
         teardown.swallowed app length].
    split; [done|]. split; [done|]. split; [lia|]. split; [|split].
    + intros Hsw.
      destruct (returned (flush t_flush _)) as [d|e] eqn:Hfr; [|discriminate].
      split; [apply flush_ok_empties; by rewrite Hfr|].
      by rewrite flush_session_ended.
    + intros e Hsw.
      destruct (returned (flush t_flush _)) as [d|e'] eqn:Hfr; [discriminate|].
      inversion Hsw; subst e'.
      destruct (Hraise _ _ _ Hfr) as (Ha & Hb & Hp).
      rewrite Ha. split; [exact Hb|].
      eexists. split; [reflexivity|]. split; [exact Hfr | exact Hp].
    + intros e He. discriminate.
  - (* ending the session returned after a flush *)
    destruct Hs as (fr & Hret & Hf & Hended).
    rewrite Hret. unfold teardown.flush_of. rewrite Hf.
    cbn [teardown.suppress teardown.x_after teardown.x_flushes
         teardown.swallowed app length].
    split; [done|]. split; [done|]. split; [lia|]. split; [|split].
    + intros Hsw.
      destruct (returned (flush t_flush _)) as [d|e] eqn:Hfr; [|discriminate].
      split; [apply flush_ok_empties; by rewrite Hfr|].
      by rewrite flush_session_ended.
    + intros e Hsw.
      destruct (returned (flush t_flush _)) as [d|e'] eqn:Hfr; [discriminate|].
      inversion Hsw; subst e'.
      destruct (Hraise _ _ _ Hfr) as (Ha & Hb & Hp).
      rewrite Ha. split; [exact Hb|].
      eexists. split; [reflexivity|]. split; [exact Hfr | exact Hp].
    + intros e He. discriminate.
  - (* ending the session raised *)
    destruct Hs as (e0 & x & Hret & Hf & Hfr & Ha).
    rewrite Hret. unfold teardown.flush_of. rewrite Hf.
    cbn [teardown.suppress teardown.x_after teardown.x_flushes
         teardown.swallowed app length].
    split; [done|]. split; [done|]. split; [lia|]. split; [|split].
    + discriminate.
    + intros e Hsw. inversion Hsw; subst e0.
      destruct (Hraise _ _ _ Hfr) as (Hafter & Hb & Hp).
      rewrite Ha, Hafter. split; [exact Hb|].
      eexists. split; [reflexivity|]. split; [exact Hfr | exact Hp].
    + intros e He. inversion He; subst e0. done.
Qed.

End session_end_behaviour.

Section runtime_behaviour.
Context `{Repr}.

Lemma lookup_over (over under : dict) k :
  (over ∪ under) !! k
  = match over !! k with Some v => Some v | None => under !! k end.
Proof.
  destruct (over !! k) as [v|] eqn:Hk.
  - by apply lookup_union_Some_l.
  - by rewrite lookup_union_r.
Qed.

Lemma update_if_truthy (d o : dict) :
  (if dict_truthy o then update d o else d) = o ∪ d.
Proof.
  destruct (dict_truthy o) eqn:Ho; [done|].
  rewrite (dict_truthy_false o Ho). by rewrite (left_id_L ∅ (∪)).
Qed.

(** X19.  [set_runtime] stores a fresh snapshot and clears the emitted
    flag; the snapshot that was there plays no part.  In the snapshot a
    keyword wins over a key of [extra], which wins over [provider],
    [model] and [mode]; [mode] is left out when it is [None] or empty.
    The buffer, the execution id, the configuration and the ended flag stay
    as they are, and setting the runtime twice is setting it to the second
    one. *)
Theorem set_runtime_snapshot provider model mode extra kwargs
    (c : SurfaClient) :
  let c' := set_runtime provider model mode extra kwargs c in
  (∃ runtime : dict,
     _runtime c' = Some runtime ∧
     ∀ k, runtime !! k
          = match kwargs !! k with
            | Some v => Some v
            | None =>
                match default ∅ extra !! k with
                | Some v => Some v
                | None => runtime_base provider model mode k
                end
            end) ∧
  _runtime_info_emitted c' = false ∧
  configuration c' = configuration c ∧
  execution_id c' = execution_id c ∧
  _buffer c' = _buffer c ∧
  _session_ended c' = _session_ended c ∧
  (∀ provider0 model0 mode0 extra0 kwargs0,
     set_runtime provider model mode extra kwargs
       (set_runtime provider0 model0 mode0 extra0 kwargs0 c)
     = c').
Proof.
  cbn zeta. split; [|done].
  unfold set_runtime. eexists. split; [reflexivity|].
  intros k. rewrite update_if_truthy, lookup_over.
  destruct (kwargs !! k) as [v|]; [done|].
  assert (He : ∀ d : dict,
            (if from_option dict_truthy false extra
             then update d (default ∅ extra) else d) = default ∅ extra ∪ d).
  { intros d. destruct extra as [x|]; cbn.
    - apply update_if_truthy.
    - by rewrite (left_id_L ∅ (∪)). }
  rewrite He, lookup_over.
  destruct (default ∅ extra !! k) as [v|]; [done|].
  unfold runtime_base.
  destruct mode as [m|]; cbn [of_opt truthy].
  - destruct (String.eqb_spec m "") as [-> | Hm]; cbn [negb].
    + destruct (String.eqb_spec k "provider") as [-> | Hp];
        [by rewrite lookup_insert_ne, lookup_singleton_eq|].
      destruct (String.eqb_spec k "model") as [-> | Hmo];
        [by rewrite lookup_insert_eq|].
      rewrite lookup_insert_ne, lookup_singleton_ne by done.
      by destruct (String.eqb k "mode").
    + destruct (String.eqb_spec k "provider") as [-> | Hp];
        [by rewrite !lookup_insert_ne, lookup_singleton_eq|].
      destruct (String.eqb_spec k "model") as [-> | Hmo];
        [by rewrite lookup_insert_ne, lookup_insert_eq|].
      destruct (String.eqb_spec k "mode") as [-> | Hmd];
        [by rewrite lookup_insert_eq|].
      by rewrite !lookup_insert_ne, lookup_singleton_ne.
  - destruct (String.eqb_spec k "provider") as [-> | Hp];
      [by rewrite lookup_insert_ne, lookup_singleton_eq|].
    destruct (String.eqb_spec k "model") as [-> | Hmo];
      [by rewrite lookup_insert_eq|].
    rewrite lookup_insert_ne, lookup_singleton_ne by done.
    by destruct (String.eqb k "mode").
Qed.

End runtime_behaviour.

Section convenience_behaviour.
Context `{Repr}.

(** The events the convenience methods build when they are given no extra
    keyword are accepted by [validate_event]. *)
Lemma plain_helper_events now tool_name :
  (∃ e, events.session_started now (payload_of ∅) (delete "payload" ∅)
        = Ok e ∧ stamped_valid now e) ∧
  (∀ args correlation_id,
     ∃ e, tool_call_started now tool_name args correlation_id ∅ = Ok e ∧
          stamped_valid now e) ∧
  (∀ result_ latency_ms correlation_id,
     ∃ e, tool_call_completed now tool_name result_ latency_ms
            correlation_id ∅ = Ok e ∧
          stamped_valid now e) ∧
  (∀ error latency_ms correlation_id,
     ∃ e, tool_call_failed now tool_name error latency_ms correlation_id ∅
          = Ok e ∧
          stamped_valid now e).
Proof.
  split; [apply ok_exists; vm_compute; by split|].
  split; [intros [a|] [cid|]; apply ok_exists; vm_compute; by split|].
  split.
  - intros result_ [l|] [cid|]; destruct result_;
      apply ok_exists; vm_compute; by split.
  - intros [err|] [l|] [cid|]; apply ok_exists; vm_compute; by split.
Qed.

(** X20.  The convenience methods [session_start], [tool_started],
    [tool_completed] and [tool_failed], called without extra keywords,
    never fail validation: each builds an event that [validate_event]
    accepts, stamped with the current time, and tracks it.  When the buffer
    with the event is below the threshold, the event is appended, the call
    returns and nothing is flushed; when it has reached the threshold, the
    buffer with the event is flushed, and the call returns or raises as
    that flush does. *)
Theorem convenience_methods_track (t : transport) (now tool_name : string)
    (c : SurfaClient) (r : track_run) :
  (r = session_start t now ∅ c ∨
   (∃ args correlation_id,
      r = tool_started t now tool_name args correlation_id ∅ c) ∨
   (∃ result_ latency_ms correlation_id,
      r = tool_completed t now tool_name result_ latency_ms correlation_id
            ∅ c) ∨
   (∃ error latency_ms correlation_id,
      r = tool_failed t now tool_name error latency_ms correlation_id ∅ c)) →
  ∃ event,
    validate_event event = Ok true ∧
    event !! "ts" = Some (PStr now) ∧
    (Z.of_nat (length (_buffer c ++ [event])) < flush_at c →
     flushed r = None ∧ t_returned r = Ok tt ∧
     t_after r = set_buffer (_buffer c ++ [event]) c) ∧
    (flush_at c ≤ Z.of_nat (length (_buffer c ++ [event])) →
     flushed r = Some (flush t (set_buffer (_buffer c ++ [event]) c)) ∧
     t_returned r
     = bind (returned (flush t (set_buffer (_buffer c ++ [event]) c)))
            (λ _, Ok tt) ∧
     t_after r = after (flush t (set_buffer (_buffer c ++ [event]) c))).
Proof.
  destruct (plain_helper_events now tool_name) as (Hs & Hst & Hco & Hfa).
  assert (Htrack : ∀ created : result dict,
            (∃ e, created = Ok e ∧ stamped_valid now e) →
            ∃ event,
              validate_event event = Ok true ∧
              event !! "ts" = Some (PStr now) ∧
              (Z.of_nat (length (_buffer c ++ [event])) < flush_at c →
               flushed (track_created t created c) = None ∧
               t_returned (track_created t created c) = Ok tt ∧
               t_after (track_created t created c)
               = set_buffer (_buffer c ++ [event]) c) ∧
              (flush_at c ≤ Z.of_nat (length (_buffer c ++ [event])) →
               flushed (track_created t created c)
               = Some (flush t (set_buffer (_buffer c ++ [event]) c)) ∧
               t_returned (track_created t created c)
               = bind (returned
                         (flush t (set_buffer (_buffer c ++ [event]) c)))
                      (λ _, Ok tt) ∧
               t_after (track_created t created c)
               = after (flush t (set_buffer (_buffer c ++ [event]) c)))).
  { intros created (e & -> & Hv & Hts). exists e.
    split; [done|]. split; [done|].
    cbn [track_created]. unfold track. split.
    - intros Hlt. by rewrite track_raw_below.
    - intros Hge. by rewrite track_raw_over. }
  intros [-> | [(args & cid & ->) | [(res & l & cid & ->)
                                    | (err & l & cid & ->)]]].
  - exact (Htrack _ Hs).
  - exact (Htrack _ (Hst args cid)).
  - exact (Htrack _ (Hco res l cid)).
  - exact (Htrack _ (Hfa err l cid)).
Qed.

End convenience_behaviour.

(** X9 at the sample client, against a transport that fails three times. *)
Lemma network_failure_policy_witness :
  _buffer samples.one_buffered ≠ [] ∧
  returned (flush (H := samples.repr_unread) scenarios.unreachable
              samples.one_buffered)
  = Raise (SurfaNetworkError ("Network error: " +:+ "timed out")).
Proof.
  split; [discriminate|].
  refine (proj1 (proj1 (proj2
    (network_failure_policy (H := samples.repr_unread) scenarios.unreachable
       samples.one_buffered _)) "timed out" "refused" "timed out"
       eq_refl eq_refl eq_refl)).
  discriminate.
Defined.

(** X11 on a client with threshold 2 that holds one event, against a
    transport that answers 401. *)
Lemma auto_flush_failure_witness :
  validate_event samples.other_event = Ok true ∧
  flush_at scenarios.one_of_two
  ≤ Z.of_nat (length (_buffer scenarios.one_of_two ++ [samples.other_event])) ∧
  _buffer (t_after (track_raw (H := samples.repr_unread)
                      scenarios.unauthorized samples.other_event
                      scenarios.one_of_two))
  = _buffer scenarios.one_of_two ++ [samples.other_event].
Proof.
  split; [reflexivity|]. split; [vm_compute; discriminate|].
  refine (proj1 (proj2
    (auto_flush_failure (H := samples.repr_unread) scenarios.unauthorized
       scenarios.unauthorized samples.other_event samples.other_event
       scenarios.one_of_two
       (SurfaAuthError "Authentication failed: 401") _ _ _)));
    [reflexivity | vm_compute; discriminate | vm_compute; reflexivity].
Defined.

(** X12 on two tracking calls on the sample client. *)
Lemma tracking_keeps_order_witness :
  tracks scenarios.two_tracks [samples.tool_event; samples.other_event] ∧
  Forall (λ event, validate_event event = Ok true)
         [samples.tool_event; samples.other_event] ∧
  _buffer (do_calls (H := samples.repr_unread) samples.one_buffered
             scenarios.two_tracks).1
  = _buffer samples.one_buffered
    ++ [samples.tool_event; samples.other_event].
Proof.
  assert (Ht : tracks scenarios.two_tracks
                 [samples.tool_event; samples.other_event]).
  { repeat constructor; by eexists. }
  assert (Hv : Forall (λ event, validate_event event = Ok true)
                 [samples.tool_event; samples.other_event]).
  { repeat constructor. }
  split; [exact Ht|]. split; [exact Hv|].
  rewrite (proj1 (proj2
    (tracking_keeps_order (H := samples.repr_unread) scenarios.two_tracks
       [samples.tool_event; samples.other_event] samples.one_buffered
       Ht Hv eq_refl))).
  reflexivity.
Defined.

(** X15 on the calls of [samples.two_flushes], after the runtime of the
    demo script. *)
Lemma requests_carry_runtime_witness :
  forallb (λ k, negb (is_set_runtime k)) samples.two_flushes = true ∧
  _runtime (do_calls (H := samples.repr_unread)
              (samples.runtime_with_kind samples.one_buffered)
              samples.two_flushes).1
  = _runtime (samples.runtime_with_kind samples.one_buffered).
Proof.
  split; [reflexivity|].
  exact (proj1 (requests_carry_runtime (H := samples.repr_unread)
                  (samples.runtime_with_kind samples.one_buffered)
                  samples.two_flushes eq_refl)).
Defined.

(** X16 from a client with an empty buffer. *)
Lemma buffer_holds_validated_events_witness :
  Forall (λ event, validate_event event = Ok true)
         (_buffer samples.threshold_two) ∧
  Forall (λ event, validate_event event = Ok true)
         (_buffer (do_calls (H := samples.repr_unread) samples.threshold_two
                     scenarios.two_tracks).1).
Proof.
  split; [constructor|].
  refine (proj1 (buffer_holds_validated_events (H := samples.repr_unread)
                   samples.threshold_two scenarios.two_tracks _)).
  constructor.
Defined.

(** X20 at [session_start] on the sample client, which holds one event
    and has a threshold of 10: the event is appended and nothing is
    flushed. *)
Lemma convenience_methods_track_witness :
  let r := session_start (H := samples.repr_unread) (script [])
             "2026-01-29T20:00:02Z" ∅ samples.one_buffered in
  flushed r = None ∧ t_returned r = Ok tt ∧
  length (_buffer (t_after r)) = 2%nat.
Proof.
  cbn zeta.
  destruct (convenience_methods_track (H := samples.repr_unread)
              (script []) "2026-01-29T20:00:02Z" "search_web"
              samples.one_buffered
              (session_start (H := samples.repr_unread) (script [])
                 "2026-01-29T20:00:02Z" ∅ samples.one_buffered)
              (or_introl eq_refl))
    as (event & _ & _ & Hbelow & _).
  destruct Hbelow as (Hf & Hr & Ha); [reflexivity|].
  split; [exact Hf|]. split; [exact Hr|]. rewrite Ha. reflexivity.
Defined.

